(** * Car sequencing with paint batching: the instance model and its evaluator

    A shallow embedding of [car_sequencing_color_problem.py]: the instance
    record built by [__init__] / [_load_instance], the scoring function
    [evaluate_solution] and the generator [random_solution].

    Python integers are unbounded, so they are [Z].  Python lists are Rocq
    lists, indexed through [getitem], which raises [IndexError] out of range
    and wraps negative indices the way Python does.  Code that can raise or
    return early runs in the small control monad [ctl] below. *)

From Stdlib Require Import Ascii String ZArith List Bool Lia Permutation Sorted Finite.
Import ListNotations.
Local Open Scope Z_scope.

(** ** Python values, exceptions and control flow *)

Inductive exn : Type :=
| TypeError
| IndexError
| ValueError
| StopIteration.

(** The outcome of evaluating an expression or calling a function. *)
Inductive result (A : Type) : Type :=
| Ok (a : A)
| Raise (e : exn).
Arguments Ok {A} a.
Arguments Raise {A} e.

(** The outcome of running a statement inside the body of a function that
    returns a number: fall through to the next statement, [return v], or
    raise. *)
Inductive ctl (A : Type) : Type :=
| Next (a : A)
| Return (v : Z)
| Throw (e : exn).
Arguments Next {A} a.
Arguments Return {A} v.
Arguments Throw {A} e.

Definition rbind {A B} (c : result A) (k : A -> result B) : result B :=
  match c with
  | Ok a => k a
  | Raise e => Raise e
  end.

Definition cbind {A B} (c : ctl A) (k : A -> ctl B) : ctl B :=
  match c with
  | Next a => k a
  | Return v => Return v
  | Throw e => Throw e
  end.

(** An expression evaluated as part of a statement. *)
Definition lift {A} (c : result A) : ctl A :=
  match c with
  | Ok a => Next a
  | Raise e => Throw e
  end.

(** A call of a function whose body is [c] and whose last statement computes
    the returned number. *)
Definition call (c : ctl Z) : result Z :=
  match c with
  | Next v => Ok v
  | Return v => Ok v
  | Throw e => Raise e
  end.

Declare Scope py_scope.
Delimit Scope py_scope with py.
Notation "x <- c ;; k" := (cbind c (fun x => k))
  (at level 61, c at next level, right associativity) : py_scope.
Notation "' pat <- c ;; k" := (cbind c (fun x => match x with pat => k end))
  (at level 61, pat pattern, c at next level, right associativity) : py_scope.
Notation "c ;; k" := (cbind c (fun _ => k))
  (at level 61, right associativity) : py_scope.
Notation "x <~ c ;; k" := (rbind c (fun x => k))
  (at level 61, c at next level, right associativity) : py_scope.
Notation "' pat <~ c ;; k" := (rbind c (fun x => match x with pat => k end))
  (at level 61, pat pattern, c at next level, right associativity) : py_scope.
Local Open Scope py_scope.

(** [for x in l: s = body x s], threading the variables the loop updates. *)
Fixpoint foreach {A S} (l : list A) (body : A -> S -> ctl S) (s : S) : ctl S :=
  match l with
  | [] => Next s
  | x :: l' => s' <- body x s ;; foreach l' body s'
  end.

(** [[f(x) for x in l]] *)
Fixpoint comprehension {A B} (f : A -> result B) (l : list A) : result (list B) :=
  match l with
  | [] => Ok []
  | x :: l' => y <~ f x ;; ys <~ comprehension f l' ;; Ok (y :: ys)
  end.

(** [list(range(lo, hi))]; empty when [hi <= lo]. *)
Definition range (lo hi : Z) : list Z :=
  map (fun i => lo + Z.of_nat i) (seq 0 (Z.to_nat (hi - lo))).

Definition len {A} (l : list A) : Z := Z.of_nat (length l).

(** [l[i]] for an integer [i]: negative indices count from the end. *)
Definition getitem {A} (l : list A) (i : Z) : result A :=
  let i' := if i <? 0 then i + len l else i in
  if (0 <=? i') && (i' <? len l) then
    match nth_error l (Z.to_nat i') with
    | Some x => Ok x
    | None => Raise IndexError
    end
  else Raise IndexError.

(** The items a candidate list can hold.  Booleans behave as the integers 0
    and 1; floating-point items are left out of the model. *)
Inductive pyitem : Type :=
| IInt (z : Z)
| IStr (s : string)
| INone.

(** The values [evaluate_solution] may be handed.  A set and a generator are
    represented by the items they would yield. *)
Inductive pyval : Type :=
| PyNone
| PyInt (z : Z)
| PyStr (s : string)
| PyList (l : list pyitem)
| PyTuple (l : list pyitem)
| PySet (l : list pyitem)
| PyGenerator (l : list pyitem).

(** [a < b]: defined between two integers or two strings only. *)
Definition py_lt (a b : pyitem) : result bool :=
  match a, b with
  | IInt x, IInt y => Ok (x <? y)
  | IStr s, IStr t => Ok (String.ltb s t)
  | _, _ => Raise TypeError
  end.

(** [a == i] for an integer [i]; never raises. *)
Definition item_eq_int (a : pyitem) (i : Z) : bool :=
  match a with
  | IInt x => x =? i
  | _ => false
  end.

(** [l == m] for a list of items and a list of integers. *)
Fixpoint items_eq_ints (l : list pyitem) (m : list Z) : bool :=
  match l, m with
  | [], [] => true
  | a :: l', i :: m' => item_eq_int a i && items_eq_ints l' m'
  | _, _ => false
  end.

(** [l[i]] where the index is an item of the candidate. *)
Definition getitem_at {A} (l : list A) (i : pyitem) : result A :=
  match i with
  | IInt z => getitem l z
  | _ => Raise TypeError
  end.

(** [sorted(l)].  Python's sort is stable and compares with [<] only; on a
    list it can order, the stable result is this insertion sort's, and it
    raises [TypeError] exactly when some comparison it needs is undefined:
    any comparison sort of two or more items has to compare every item with
    another one. *)
Fixpoint insert_sorted (x : pyitem) (s : list pyitem) : result (list pyitem) :=
  match s with
  | [] => Ok [x]
  | y :: s' =>
      b <~ py_lt y x ;;
      if b then (r <~ insert_sorted x s' ;; Ok (y :: r)) else Ok (x :: s)
  end.

Fixpoint sorted (l : list pyitem) : result (list pyitem) :=
  match l with
  | [] => Ok []
  | x :: l' => s <~ sorted l' ;; insert_sorted x s
  end.

(** ** The instance *)

Definition COLOR_HIGH_LOW : Z := 0.
Definition HIGH_LOW_COLOR : Z := 1.
Definition HIGH_COLOR_LOW : Z := 2.
Definition COLOR_HIGH : Z := 3.
Definition HIGH_COLOR : Z := 4.

Record CarSequencingColorProblem : Type := {
  nb_positions : Z;
  nb_options : Z;
  paint_batch_limit : Z;
  objective_order : Z;
  start_position : Z;
  max_cars_per_window : list Z;
  window_size : list Z;
  is_priority_option : list bool;
  has_low_priority_options : bool;
  color_class : list Z;
  options_data : list (list bool);
  initial_sequence : list Z
}.

(** ** evaluate_solution *)

(** [PENALTY = 1e9]: a float whose value is the integer 10^9; Python
    compares it with integers exactly. *)
Definition PENALTY : Z := 1000000000.
Definition M : Z := 10000.

(** Lines 150-158: the type and length guard, the permutation check and the
    fixed-prefix loop.  Falls through with the candidate's items. *)
Definition check_solution (self : CarSequencingColorProblem) (solution : pyval)
  : ctl (list pyitem) :=
  items <- match solution with
           | PyList l | PyTuple l =>
               if negb (len l =? nb_positions self) then Return PENALTY else Next l
           | _ => Return PENALTY
           end ;;
  srt <- lift (sorted items) ;;
  (if negb (items_eq_ints srt (range 0 (nb_positions self)))
   then Return PENALTY else Next tt) ;;
  foreach (range 0 (start_position self))
    (fun p _ =>
       v <- lift (getitem items p) ;;
       if negb (item_eq_int v p) then Return PENALTY else Next tt) tt ;;
  Next items.

(** Line 161: [sequence = [self.initial_sequence[i] for i in solution]]. *)
Definition build_sequence (self : CarSequencingColorProblem) (items : list pyitem)
  : result (list Z) :=
  comprehension (getitem_at (initial_sequence self)) items.

(** Lines 164-167: the colour-change counter. *)
Definition objective_color (self : CarSequencingColorProblem) (sequence : list Z)
  : ctl Z :=
  foreach (range (Z.max (start_position self - 1) 0) (nb_positions self - 1))
    (fun p objective_color =>
       a <- lift (getitem sequence p) ;;
       ca <- lift (getitem (color_class self) a) ;;
       b <- lift (getitem sequence (p + 1)) ;;
       cb <- lift (getitem (color_class self) b) ;;
       if negb (ca =? cb) then Next (objective_color + 1) else Next objective_color)
    0.

(** Lines 179-183: the occupancy of the window starting at [j]. *)
Definition window_count (self : CarSequencingColorProblem) (sequence : list Z)
  (o win j : Z) : ctl Z :=
  foreach (range 0 win)
    (fun k count =>
       car_class <- lift (getitem sequence (j + k)) ;;
       row <- lift (getitem (options_data self) car_class) ;;
       req <- lift (getitem row o) ;;
       if req : bool then Next (count + 1) else Next count)
    0.

(** Lines 170-188: the pair (objective_high_priority, objective_low_priority). *)
Definition objective_options (self : CarSequencingColorProblem) (sequence : list Z)
  : ctl (Z * Z) :=
  foreach (range 0 (nb_options self))
    (fun o acc =>
       win <- lift (getitem (window_size self) o) ;;
       max_allowed <- lift (getitem (max_cars_per_window self) o) ;;
       let start_idx := Z.max 0 (start_position self - win + 1) in
       foreach (range start_idx (nb_positions self - win + 1))
         (fun j acc =>
            count <- window_count self sequence o win j ;;
            let violation := Z.max (count - max_allowed) 0 in
            prio <- lift (getitem (is_priority_option self) o) ;;
            if prio : bool
            then Next (fst acc + violation, snd acc)
            else Next (fst acc, snd acc + violation))
         acc)
    (0, 0).

(** Lines 191-202: the scalar encoding of the objective order. *)
Definition combine (order objective_color objective_high_priority
                    objective_low_priority : Z) : Z :=
  if order =? COLOR_HIGH_LOW then
    objective_color * (M ^ 2) + objective_high_priority * M + objective_low_priority
  else if order =? HIGH_LOW_COLOR then
    objective_high_priority * (M ^ 2) + objective_low_priority * M + objective_color
  else if order =? HIGH_COLOR_LOW then
    objective_high_priority * (M ^ 2) + objective_color * M + objective_low_priority
  else if order =? COLOR_HIGH then
    objective_color * M + objective_high_priority
  else if order =? HIGH_COLOR then
    objective_high_priority * M + objective_color
  else
    objective_color + objective_high_priority + objective_low_priority.

Definition evaluate_body (self : CarSequencingColorProblem) (solution : pyval)
  : ctl Z :=
  items <- check_solution self solution ;;
  sequence <- lift (build_sequence self items) ;;
  objective_color <- objective_color self sequence ;;
  '(objective_high_priority, objective_low_priority)
     <- objective_options self sequence ;;
  Return (combine (objective_order self) objective_color
            objective_high_priority objective_low_priority).

Definition evaluate_solution (self : CarSequencingColorProblem) (solution : pyval)
  : result Z :=
  call (evaluate_body self solution).

(** ** Instance construction *)

(** Reading the whitespace-separated tokens of an instance file: an iterator
    over the tokens left, with Python's [int] as a parameter. *)
Definition reader (A : Type) : Type := list string -> result (A * list string).

Definition rd_ret {A} (a : A) : reader A := fun it => Ok (a, it).

Definition rd_bind {A B} (c : reader A) (k : A -> reader B) : reader B :=
  fun it =>
    match c it with
    | Ok (a, it') => k a it'
    | Raise e => Raise e
    end.

Definition rd_lift {A} (c : result A) : reader A :=
  fun it => match c with Ok a => Ok (a, it) | Raise e => Raise e end.

Notation "x <<- c ;; k" := (rd_bind c (fun x => k))
  (at level 61, c at next level, right associativity) : py_scope.
Notation "' pat <<- c ;; k" := (rd_bind c (fun x => match x with pat => k end))
  (at level 61, pat pattern, c at next level, right associativity) : py_scope.

Fixpoint rd_foreach {A S} (l : list A) (body : A -> S -> reader S) (s : S) : reader S :=
  match l with
  | [] => rd_ret s
  | x :: l' => s' <<- body x s ;; rd_foreach l' body s'
  end.

(** The adjustment of lines 99-105. *)
Definition adjust_objective_order (has_low : bool) (objective_order : Z) : Z :=
  if negb has_low then
    if objective_order =? COLOR_HIGH_LOW then COLOR_HIGH
    else if objective_order =? HIGH_COLOR_LOW then HIGH_COLOR
    else if objective_order =? HIGH_LOW_COLOR then HIGH_COLOR
    else objective_order
  else objective_order.

Section Loader.

(** [int(token)]; raises [ValueError] on a token that is not a number. *)
Variable py_int : string -> result Z.

(** [int(next(it))] *)
Definition next_int : reader Z :=
  fun it =>
    match it with
    | [] => Raise StopIteration
    | t :: it' => v <~ py_int t ;; Ok (v, it')
    end.

(** Lines 86-97: the per-option triples and the [has_low] flag. *)
Definition read_options (nb_options : Z)
  : reader (list Z * list Z * list bool * bool) :=
  rd_foreach (range 0 nb_options)
    (fun _ '(max_cars_per_window, window_size, is_priority_option, has_low) =>
       m <<- next_int ;;
       w <<- next_int ;;
       p <<- next_int ;;
       let prio := p =? 1 in
       rd_ret (max_cars_per_window ++ [m], window_size ++ [w],
               is_priority_option ++ [prio],
               if negb prio then true else has_low))
    ([], [], [], false).

(** Line 114: [[(int(next(it)) == 1) for _ in range(nb_options)]]. *)
Definition read_opts (nb_options : Z) : reader (list bool) :=
  rd_foreach (range 0 nb_options)
    (fun _ opts => b <<- next_int ;; rd_ret (opts ++ [b =? 1])) [].

(** Lines 107-115: the per-class records. *)
Definition read_classes (nb_classes nb_options : Z)
  : reader (list Z * list Z * list (list bool)) :=
  rd_foreach (range 0 nb_classes)
    (fun _ '(color_class, nb_cars_per_class, options_data) =>
       color <<- next_int ;;
       count <<- next_int ;;
       opts <<- read_opts nb_options ;;
       rd_ret (color_class ++ [color], nb_cars_per_class ++ [count],
               options_data ++ [opts]))
    ([], [], []).

(** Lines 117-119: each class index repeated by its number of cars. *)
Fixpoint expand_classes (cs : list Z) (nb_cars_per_class initial_sequence : list Z)
  : result (list Z) :=
  match cs with
  | [] => Ok initial_sequence
  | c :: cs' =>
      k <~ getitem nb_cars_per_class c ;;
      expand_classes cs' nb_cars_per_class
        (initial_sequence ++ repeat c (Z.to_nat k))
  end.

(** [_load_instance], from the tokens of the file. *)
Definition _load_instance (tokens : list string) : result CarSequencingColorProblem :=
  let body : reader CarSequencingColorProblem :=
    nb_positions <<- next_int ;;
    nb_options <<- next_int ;;
    nb_classes <<- next_int ;;
    paint_batch_limit <<- next_int ;;
    objective_order <<- next_int ;;
    start_position <<- next_int ;;
    '(max_cars_per_window, window_size, is_priority_option, has_low)
       <<- read_options nb_options ;;
    let objective_order := adjust_objective_order has_low objective_order in
    '(color_class, nb_cars_per_class, options_data)
       <<- read_classes nb_classes nb_options ;;
    initial_sequence
       <<- rd_lift (expand_classes (range 0 nb_classes) nb_cars_per_class []) ;;
    if negb (len initial_sequence =? nb_positions) then rd_lift (Raise ValueError)
    else rd_ret {|
      nb_positions := nb_positions;
      nb_options := nb_options;
      paint_batch_limit := paint_batch_limit;
      objective_order := objective_order;
      start_position := start_position;
      max_cars_per_window := max_cars_per_window;
      window_size := window_size;
      is_priority_option := is_priority_option;
      has_low_priority_options := has_low;
      color_class := color_class;
      options_data := options_data;
      initial_sequence := initial_sequence |}
  in
  match body tokens with
  | Ok (self, _) => Ok self
  | Raise e => Raise e
  end.

(** The keyword arguments of [__init__]; [None] is the default of each.
    [instance_file] stands for the tokens of the file it names. *)
Record init_args : Type := {
  arg_instance_file : option (list string);
  arg_nb_positions : option Z;
  arg_nb_options : option Z;
  arg_paint_batch_limit : option Z;
  arg_objective_order : option Z;
  arg_start_position : option Z;
  arg_max_cars_per_window : option (list Z);
  arg_window_size : option (list Z);
  arg_is_priority_option : option (list bool);
  arg_has_low_priority_options : option bool;
  arg_color_class : option (list Z);
  arg_options_data : option (list (list bool));
  arg_initial_sequence : option (list Z)
}.

Definition __init__ (a : init_args) : result CarSequencingColorProblem :=
  match arg_instance_file a with
  | Some tokens => _load_instance tokens
  | None =>
      match arg_nb_positions a, arg_nb_options a, arg_paint_batch_limit a,
            arg_objective_order a, arg_start_position a,
            arg_max_cars_per_window a, arg_window_size a,
            arg_is_priority_option a, arg_has_low_priority_options a,
            arg_color_class a, arg_options_data a, arg_initial_sequence a with
      | Some nb_positions, Some nb_options, Some paint_batch_limit,
        Some objective_order, Some start_position,
        Some max_cars_per_window, Some window_size,
        Some is_priority_option, Some has_low_priority_options,
        Some color_class, Some options_data, Some initial_sequence =>
          Ok {|
            nb_positions := nb_positions;
            nb_options := nb_options;
            paint_batch_limit := paint_batch_limit;
            objective_order := objective_order;
            start_position := start_position;
            max_cars_per_window := max_cars_per_window;
            window_size := window_size;
            is_priority_option := is_priority_option;
            has_low_priority_options := has_low_priority_options;
            color_class := color_class;
            options_data := options_data;
            initial_sequence := initial_sequence |}
      | _, _, _, _, _, _, _, _, _, _, _, _ => Raise ValueError
      end
  end.

End Loader.

(** ** random_solution *)

(** [l[i] = v] *)
Definition setitem {A} (l : list A) (i : Z) (v : A) : result (list A) :=
  let i' := if i <? 0 then i + len l else i in
  if (0 <=? i') && (i' <? len l) then
    Ok (firstn (Z.to_nat i') l ++ v :: skipn (S (Z.to_nat i')) l)
  else Raise IndexError.

Section Random.

(** The state of the ambient generator and its [_randbelow(n)], which
    draws from [0, n). *)
Variable rng : Type.
Variable randbelow : Z -> rng -> Z * rng.

(** [x[i], x[j] = x[j], x[i]] *)
Definition swap_items (x : list Z) (i j : Z) : result (list Z) :=
  xj <~ getitem x j ;;
  xi <~ getitem x i ;;
  x1 <~ setitem x i xj ;;
  setitem x1 j xi.

Fixpoint shuffle_loop (idxs : list Z) (x : list Z) (g : rng) : result (list Z * rng) :=
  match idxs with
  | [] => Ok (x, g)
  | i :: idxs' =>
      let '(j, g') := randbelow (i + 1) g in
      x' <~ swap_items x i j ;;
      shuffle_loop idxs' x' g'
  end.

(** [random.shuffle(x)]: for [i] in [reversed(range(1, len(x)))], swap
    [x[i]] with [x[randbelow(i + 1)]]. *)
Definition shuffle (x : list Z) (g : rng) : result (list Z * rng) :=
  shuffle_loop (rev (range 1 (len x))) x g.

Definition random_solution (self : CarSequencingColorProblem) (g : rng)
  : result (list Z * rng) :=
  let fixed := range 0 (start_position self) in
  let remaining := range (start_position self) (nb_positions self) in
  '(remaining, g') <~ shuffle remaining g ;;
  Ok (fixed ++ remaining, g').

End Random.

(** ** The specification's reading of the evaluator *)

(** The positions [lo] through [hi], both included. *)
Definition interval (lo hi : Z) : list Z := range lo (hi + 1).

Definition count_where (P : Z -> bool) (l : list Z) : Z :=
  Z.of_nat (length (filter P l)).

Definition sum_over (l : list Z) (f : Z -> Z) : Z :=
  fold_right (fun x acc => f x + acc) 0 l.

Section Spec.

Variable self : CarSequencingColorProblem.
Variable candidate : list Z.

(** [sequence[p] = baseline_sequence[candidate[p]]] *)
Definition class_at (p : Z) : Z :=
  nth (Z.to_nat (nth (Z.to_nat p) candidate 0)) (initial_sequence self) 0.

Definition color_of (c : Z) : Z := nth (Z.to_nat c) (color_class self) 0.

(** [option_requirements[class][o]] *)
Definition requires (c o : Z) : bool :=
  nth (Z.to_nat o) (nth (Z.to_nat c) (options_data self) []) false.

Definition window_of (o : Z) : Z := nth (Z.to_nat o) (window_size self) 0.
Definition capacity_of (o : Z) : Z := nth (Z.to_nat o) (max_cars_per_window self) 0.
Definition is_high_priority (o : Z) : bool :=
  nth (Z.to_nat o) (is_priority_option self) false.

(** The pairs [(p, p+1)] whose colours differ, for [p] from
    [max(start_position - 1, 0)] to [position_count - 2]. *)
Definition color_changes : Z :=
  count_where
    (fun p => negb (color_of (class_at p) =? color_of (class_at (p + 1))))
    (interval (Z.max (start_position self - 1) 0) (nb_positions self - 2)).

(** How many of the positions [j .. j+w-1] hold a class requiring [o]. *)
Definition window_occupancy (o j : Z) : Z :=
  count_where (fun p => requires (class_at p) o)
    (interval j (j + window_of o - 1)).

Definition window_violation (o j : Z) : Z :=
  Z.max (window_occupancy o j - capacity_of o) 0.

(** The violations of option [o], summed over the window starts
    [max(0, start_position - w + 1)] through [position_count - w]. *)
Definition option_violations (o : Z) : Z :=
  sum_over
    (interval (Z.max 0 (start_position self - window_of o + 1))
              (nb_positions self - window_of o))
    (window_violation o).

Definition high_priority_total : Z :=
  sum_over (filter is_high_priority (range 0 (nb_options self))) option_violations.

Definition low_priority_total : Z :=
  sum_over (filter (fun o => negb (is_high_priority o)) (range 0 (nb_options self)))
    option_violations.

(** A candidate: [position_count] distinct integers of [0, position_count). *)
Definition is_permutation : Prop :=
  len candidate = nb_positions self /\
  NoDup candidate /\
  Forall (fun i => 0 <= i < nb_positions self) candidate.

(** [candidate[p] == p] for every [p < start_position]. *)
Definition respects_prefix : Prop :=
  forall p, 0 <= p < start_position self ->
            nth_error candidate (Z.to_nat p) = Some p.

Definition valid_candidate : Prop := is_permutation /\ respects_prefix.

(** The invariants of the instance. *)
Definition valid_instance : Prop :=
  0 <= start_position self <= nb_positions self /\
  len (initial_sequence self) = nb_positions self /\
  Forall (fun c => 0 <= c < len (color_class self)) (initial_sequence self) /\
  len (options_data self) = len (color_class self) /\
  len (max_cars_per_window self) = nb_options self /\
  len (window_size self) = nb_options self /\
  len (is_priority_option self) = nb_options self /\
  Forall (fun row => len row = nb_options self) (options_data self).

End Spec.

(** The candidate as a Python list or tuple of integers. *)
Definition as_sequence (solution : pyval) (candidate : list Z) : Prop :=
  solution = PyList (map IInt candidate) \/ solution = PyTuple (map IInt candidate).

(** Sorting integers, as [sorted] does on a list of integers. *)
Fixpoint insert_int (x : Z) (s : list Z) : list Z :=
  match s with
  | [] => [x]
  | y :: s' => if y <? x then y :: insert_int x s' else x :: s
  end.

Fixpoint sort_ints (l : list Z) : list Z :=
  match l with
  | [] => []
  | x :: l' => insert_int x (sort_ints l')
  end.

(** The formula the objective order selects, as the table of the
    specification gives it. *)
Definition combined_score (order color high low : Z) : Z :=
  match order with
  | 0 => color * 10000 ^ 2 + high * 10000 + low
  | 1 => high * 10000 ^ 2 + low * 10000 + color
  | 2 => high * 10000 ^ 2 + color * 10000 + low
  | 3 => color * 10000 + high
  | 4 => high * 10000 + color
  | _ => color + high + low
  end.

(** The list [build_sequence] computes on a valid candidate. *)
Definition sequence_of (self : CarSequencingColorProblem) (candidate : list Z)
  : list Z :=
  map (fun i => nth (Z.to_nat i) (initial_sequence self) 0) candidate.

(** What one option adds to the pair (high, low) of totals. *)
Definition add_option (self : CarSequencingColorProblem) (candidate : list Z)
  (acc : Z * Z) (o : Z) : Z * Z :=
  if is_high_priority self o
  then (fst acc + option_violations self candidate o, snd acc)
  else (fst acc, snd acc + option_violations self candidate o).

(** ** Concrete instances *)

(** Five positions, two classes of colours 1 and 2 alternating, no option. *)
Definition alternating5 (order : Z) : CarSequencingColorProblem := {|
  nb_positions := 5; nb_options := 0; paint_batch_limit := 10;
  objective_order := order; start_position := 0;
  max_cars_per_window := []; window_size := []; is_priority_option := [];
  has_low_priority_options := false;
  color_class := [1; 2]; options_data := [[]; []];
  initial_sequence := [0; 1; 0; 1; 0] |}.

(** Three cars of class 0, one option of window 2 and capacity 1 that class 0
    requires; [prio] tells whether the option is high priority. *)
Definition dense3 (order : Z) (prio : bool) : CarSequencingColorProblem := {|
  nb_positions := 3; nb_options := 1; paint_batch_limit := 10;
  objective_order := order; start_position := 0;
  max_cars_per_window := [1]; window_size := [2]; is_priority_option := [prio];
  has_low_priority_options := negb prio;
  color_class := [7]; options_data := [[true]];
  initial_sequence := [0; 0; 0] |}.

(** Four cars of two colours, the first two positions fixed, no option. *)
Definition prefixed4 (order : Z) : CarSequencingColorProblem := {|
  nb_positions := 4; nb_options := 0; paint_batch_limit := 10;
  objective_order := order; start_position := 2;
  max_cars_per_window := []; window_size := []; is_priority_option := [];
  has_low_priority_options := false;
  color_class := [1; 2]; options_data := [[]; []];
  initial_sequence := [0; 0; 1; 1] |}.

(** Eleven cars alternating between two colours under the order
    colour, high, low; one low-priority option that no window exceeds. *)
Definition alternating11 : CarSequencingColorProblem := {|
  nb_positions := 11; nb_options := 1; paint_batch_limit := 10;
  objective_order := COLOR_HIGH_LOW; start_position := 0;
  max_cars_per_window := [1]; window_size := [1]; is_priority_option := [false];
  has_low_priority_options := true;
  color_class := [1; 2]; options_data := [[true]; [false]];
  initial_sequence := [0; 1; 0; 1; 0; 1; 0; 1; 0; 1; 0] |}.

(** The same eleven cars when the option admits no car at all: each of the
    six cars of class 0 is one low-priority violation. *)
Definition alternating11_tight : CarSequencingColorProblem := {|
  nb_positions := 11; nb_options := 1; paint_batch_limit := 10;
  objective_order := COLOR_HIGH_LOW; start_position := 0;
  max_cars_per_window := [0]; window_size := [1]; is_priority_option := [false];
  has_low_priority_options := true;
  color_class := [1; 2]; options_data := [[true]; [false]];
  initial_sequence := [0; 1; 0; 1; 0; 1; 0; 1; 0; 1; 0] |}.

(** The file of [dense3 3 false]: a two-term order code next to a
    low-priority option. *)
Definition dense3_tokens : list string :=
  ["3"; "1"; "1"; "10"; "3"; "0"; "1"; "2"; "0"; "7"; "3"; "1"]%string.

(** Three cars of colour 1 then two of colour 2, no option: the instance
    the tokens [grouped5_tokens] describe, under a chosen order code. *)
Definition grouped5 (order : Z) : CarSequencingColorProblem := {|
  nb_positions := 5; nb_options := 0; paint_batch_limit := 10;
  objective_order := order; start_position := 0;
  max_cars_per_window := []; window_size := []; is_priority_option := [];
  has_low_priority_options := false;
  color_class := [1; 2]; options_data := [[]; []];
  initial_sequence := [0; 0; 0; 1; 1] |}.

Definition grouped5_tokens : list string :=
  ["5"; "0"; "2"; "10"; "0"; "0"; "1"; "3"; "2"; "2"]%string.

(** The keyword arguments that spell [grouped5 order] out. *)
Definition grouped5_args (order : Z) : init_args := {|
  arg_instance_file := None;
  arg_nb_positions := Some 5;
  arg_nb_options := Some 0;
  arg_paint_batch_limit := Some 10;
  arg_objective_order := Some order;
  arg_start_position := Some 0;
  arg_max_cars_per_window := Some [];
  arg_window_size := Some [];
  arg_is_priority_option := Some [];
  arg_has_low_priority_options := Some false;
  arg_color_class := Some [1; 2];
  arg_options_data := Some [[]; []];
  arg_initial_sequence := Some [0; 0; 0; 1; 1] |}.

(** [int] on the plain decimal tokens instance files are made of; it only
    serves to run the loader on a concrete file. *)
Definition digit_of (c : Ascii.ascii) : option Z :=
  let n := Z.of_N (Ascii.N_of_ascii c) in
  if (48 <=? n) && (n <=? 57) then Some (n - 48) else None.

Fixpoint digits (s : string) (acc : Z) : result Z :=
  match s with
  | EmptyString => Ok acc
  | String c s' =>
      match digit_of c with
      | Some d => digits s' (10 * acc + d)
      | None => Raise ValueError
      end
  end.

Definition int_of_decimal (s : string) : result Z :=
  match s with
  | EmptyString => Raise ValueError
  | String "-"%char (String c s') => v <~ digits (String c s') 0 ;; Ok (- v)
  | _ => digits s 0
  end.

(** A linear congruential generator, to run [random_solution] with. *)
Definition lcg_randbelow (n : Z) (g : Z) : Z * Z :=
  (g mod n, (1103515245 * g + 12345) mod 2147483648).

(** ** Orders on the objective totals *)

(** Lexicographic comparison of two triples of totals. *)
Definition lex_lt (a b : Z * Z * Z) : Prop :=
  let '(a1, a2, a3) := a in
  let '(b1, b2, b3) := b in
  a1 < b1 \/ (a1 = b1 /\ (a2 < b2 \/ (a2 = b2 /\ a3 < b3))).

(** The totals in the priority order the code [order] names; a two-term
    code leaves the low-priority total out. *)
Definition objective_key (order color high low : Z) : Z * Z * Z :=
  if order =? COLOR_HIGH_LOW then (color, high, low)
  else if order =? HIGH_LOW_COLOR then (high, low, color)
  else if order =? HIGH_COLOR_LOW then (high, color, low)
  else if order =? COLOR_HIGH then (color, high, 0)
  else (high, color, 0).

(** The instance with another [start_position]. *)
Definition with_start (self : CarSequencingColorProblem) (start : Z)
  : CarSequencingColorProblem := {|
  nb_positions := nb_positions self;
  nb_options := nb_options self;
  paint_batch_limit := paint_batch_limit self;
  objective_order := objective_order self;
  start_position := start;
  max_cars_per_window := max_cars_per_window self;
  window_size := window_size self;
  is_priority_option := is_priority_option self;
  has_low_priority_options := has_low_priority_options self;
  color_class := color_class self;
  options_data := options_data self;
  initial_sequence := initial_sequence self |}.

(** ** What a reader consumes *)

(** The reader [c] takes exactly [k] tokens off the front, whatever follows
    them. *)
Definition reads {A} (c : reader A) (k : nat) : Prop :=
  forall it a it',
    c it = Ok (a, it') ->
    exists used,
      it = used ++ it' /\ length used = k /\
      forall extra, c (used ++ extra) = Ok (a, extra).

(** ** Lists, ranges and loops *)

Lemma len_nonneg {A} (l : list A) : 0 <= len l.
Proof. unfold len. lia. Qed.

Lemma len_map {A B} (f : A -> B) (l : list A) : len (map f l) = len l.
Proof. unfold len. now rewrite length_map. Qed.

Lemma len_range lo hi : len (range lo hi) = Z.max 0 (hi - lo).
Proof. unfold len, range. rewrite length_map, length_seq. lia. Qed.

Lemma In_range lo hi x : In x (range lo hi) <-> lo <= x < hi.
Proof.
  unfold range. rewrite in_map_iff. split.
  - intros (i & <- & Hi). apply in_seq in Hi. lia.
  - intros Hx. exists (Z.to_nat (x - lo)). split; [lia|].
    apply in_seq. lia.
Qed.

Lemma range_empty lo hi : hi <= lo -> range lo hi = [].
Proof.
  intros H. unfold range. replace (Z.to_nat (hi - lo)) with 0%nat by lia.
  reflexivity.
Qed.

Lemma range_cons lo hi : lo < hi -> range lo hi = lo :: range (lo + 1) hi.
Proof.
  intros H. unfold range.
  replace (Z.to_nat (hi - lo)) with (S (Z.to_nat (hi - (lo + 1)))) by lia.
  cbn [seq map]. f_equal; [lia|].
  rewrite <- seq_shift, map_map. apply map_ext. intros i. lia.
Qed.

Lemma nth_range lo hi i d :
  (i < Z.to_nat (hi - lo))%nat -> nth i (range lo hi) d = lo + Z.of_nat i.
Proof.
  intros H. unfold range.
  rewrite nth_indep with (d' := lo + Z.of_nat 0) by (now rewrite length_map, length_seq).
  rewrite (map_nth (fun i => lo + Z.of_nat i)), seq_nth by assumption.
  reflexivity.
Qed.

Lemma NoDup_range lo hi : NoDup (range lo hi).
Proof.
  unfold range. apply Injective_map_NoDup; [|apply seq_NoDup].
  intros a b. lia.
Qed.

Lemma getitem_Ok {A} (l : list A) (i : Z) (d : A) :
  0 <= i < len l -> getitem l i = Ok (nth (Z.to_nat i) l d).
Proof.
  intros H. unfold getitem.
  destruct (Z.ltb_spec i 0); [lia|].
  destruct (Z.leb_spec 0 i); [|lia].
  destruct (Z.ltb_spec i (len l)); [|lia]. cbn [andb].
  destruct (nth_error l (Z.to_nat i)) eqn:E.
  - now rewrite (nth_error_nth _ _ d E).
  - apply nth_error_None in E. unfold len in H. lia.
Qed.

Lemma getitem_nth_error {A} (l : list A) (i : Z) (x : A) :
  0 <= i -> nth_error l (Z.to_nat i) = Some x -> getitem l i = Ok x.
Proof.
  intros Hi E.
  assert (Hlt : (Z.to_nat i < length l)%nat)
    by (apply nth_error_Some; congruence).
  rewrite (getitem_Ok l i x) by (unfold len; lia).
  now rewrite (nth_error_nth _ _ x E).
Qed.

Lemma foreach_Next {A S} (l : list A) (body : A -> S -> ctl S) (f : S -> A -> S) :
  (forall x s, In x l -> body x s = Next (f s x)) ->
  forall s, foreach l body s = Next (fold_left f l s).
Proof.
  induction l as [|x l IH]; intros Hb s; cbn [foreach fold_left]; [reflexivity|].
  rewrite Hb by (now left). cbn [cbind].
  apply IH. intros y s' Hy. apply Hb. now right.
Qed.

Lemma foreach_unit {A} (l : list A) (body : A -> unit -> ctl unit) :
  (forall x, In x l -> body x tt = Next tt) -> foreach l body tt = Next tt.
Proof.
  induction l as [|x l IH]; intros Hb; cbn [foreach]; [reflexivity|].
  rewrite Hb by (now left). cbn [cbind].
  apply IH. intros y Hy. apply Hb. now right.
Qed.

(** A loop that returns at its first item, if any, satisfying the test. *)
Lemma foreach_Return {A} (l : list A) (body : A -> unit -> ctl unit) (x : A) (v : Z) :
  In x l ->
  (forall y, In y l -> body y tt = Next tt \/ body y tt = Return v) ->
  body x tt = Return v ->
  foreach l body tt = Return v.
Proof.
  induction l as [|y l IH]; intros Hx Hb Hr; [contradiction|].
  cbn [foreach].
  destruct (Hb y (or_introl eq_refl)) as [E|E]; rewrite E; cbn [cbind]; [|reflexivity].
  destruct Hx as [->|Hx]; [congruence|].
  apply IH; auto. intros z Hz. apply Hb. now right.
Qed.

Lemma comprehension_Ok {A B} (f : A -> result B) (g : A -> B) (l : list A) :
  (forall x, In x l -> f x = Ok (g x)) -> comprehension f l = Ok (map g l).
Proof.
  induction l as [|x l IH]; intros Hf; cbn [comprehension map]; [reflexivity|].
  rewrite Hf by (now left). cbn [rbind].
  rewrite IH by (intros y Hy; apply Hf; now right). reflexivity.
Qed.

Lemma count_where_cons P x l :
  count_where P (x :: l) = (if P x then 1 else 0) + count_where P l.
Proof.
  unfold count_where. cbn [filter]. destruct (P x); cbn [length]; lia.
Qed.

Lemma count_where_ext P Q l :
  (forall x, In x l -> P x = Q x) -> count_where P l = count_where Q l.
Proof.
  intros H. unfold count_where. f_equal. f_equal.
  induction l as [|x l IH]; [reflexivity|]. cbn [filter].
  rewrite (H x) by (now left). rewrite IH by (intros; apply H; now right).
  reflexivity.
Qed.

Lemma count_where_nonneg P l : 0 <= count_where P l.
Proof. unfold count_where. lia. Qed.

Lemma fold_count (P : Z -> bool) l c :
  fold_left (fun c p => if P p then c + 1 else c) l c = c + count_where P l.
Proof.
  revert c. induction l as [|x l IH]; intros c; cbn [fold_left].
  - unfold count_where. cbn. lia.
  - rewrite IH, count_where_cons. destruct (P x); lia.
Qed.

Lemma sum_over_cons x l f : sum_over (x :: l) f = f x + sum_over l f.
Proof. reflexivity. Qed.

Lemma sum_over_ext l f g :
  (forall x, In x l -> f x = g x) -> sum_over l f = sum_over l g.
Proof.
  intros H. induction l as [|x l IH]; [reflexivity|].
  cbn [sum_over fold_right]. fold (sum_over l f) (sum_over l g).
  rewrite (H x) by (now left). rewrite IH by (intros; apply H; now right).
  reflexivity.
Qed.

Lemma sum_over_nonneg l f :
  (forall x, In x l -> 0 <= f x) -> 0 <= sum_over l f.
Proof.
  intros H. induction l as [|x l IH]; cbn; [lia|].
  fold (sum_over l f).
  specialize (H x (or_introl eq_refl)) as Hx.
  assert (0 <= sum_over l f) by (apply IH; intros; apply H; now right). lia.
Qed.

Lemma sum_over_zero l f :
  (forall x, In x l -> 0 <= f x) ->
  sum_over l f = 0 -> forall x, In x l -> f x = 0.
Proof.
  induction l as [|y l IH]; intros Hn Hs x Hx; [contradiction|].
  cbn in Hs. fold (sum_over l f) in Hs.
  assert (0 <= f y) by (apply Hn; now left).
  assert (0 <= sum_over l f) by (apply sum_over_nonneg; intros; apply Hn; now right).
  destruct Hx as [->|Hx]; [lia|].
  apply IH; auto; [intros; apply Hn; now right | lia].
Qed.

(** ** Sorting *)

Lemma insert_sorted_ints x s :
  insert_sorted (IInt x) (map IInt s) = Ok (map IInt (insert_int x s)).
Proof.
  induction s as [|y s IH]; cbn [map insert_sorted insert_int py_lt rbind];
    [reflexivity|].
  destruct (y <? x); [|reflexivity].
  rewrite IH. reflexivity.
Qed.

Lemma sorted_ints l : sorted (map IInt l) = Ok (map IInt (sort_ints l)).
Proof.
  induction l as [|x l IH]; cbn [map sorted sort_ints]; [reflexivity|].
  rewrite IH. cbn [rbind]. apply insert_sorted_ints.
Qed.

Lemma insert_int_perm x s : Permutation (insert_int x s) (x :: s).
Proof.
  induction s as [|y s IH]; cbn [insert_int]; [reflexivity|].
  destruct (y <? x); [|reflexivity].
  rewrite IH. apply perm_swap.
Qed.

Lemma sort_ints_perm l : Permutation (sort_ints l) l.
Proof.
  induction l as [|x l IH]; cbn [sort_ints]; [reflexivity|].
  rewrite insert_int_perm. now constructor.
Qed.

Lemma insert_int_sorted x s :
  StronglySorted Z.le s -> StronglySorted Z.le (insert_int x s).
Proof.
  induction 1 as [|y s Hs IH Hy]; cbn [insert_int].
  - repeat constructor.
  - destruct (Z.ltb_spec y x).
    + constructor; [assumption|].
      rewrite Forall_forall in *. intros z Hz.
      apply (Permutation_in _ (insert_int_perm x s)) in Hz.
      destruct Hz as [<-|Hz]; [lia | now apply Hy].
    + constructor; [now constructor|].
      constructor; [assumption|].
      rewrite Forall_forall in *. intros z Hz. specialize (Hy z Hz). lia.
Qed.

Lemma sort_ints_sorted l : StronglySorted Z.le (sort_ints l).
Proof.
  induction l as [|x l IH]; cbn [sort_ints]; [constructor|].
  now apply insert_int_sorted.
Qed.

Lemma sorted_perm_unique (l1 l2 : list Z) :
  StronglySorted Z.le l1 -> StronglySorted Z.le l2 ->
  Permutation l1 l2 -> l1 = l2.
Proof.
  intros H1. revert l2.
  induction H1 as [|a l1 Hs1 IH Ha]; intros l2 H2 HP.
  - apply Permutation_nil in HP. now subst.
  - destruct H2 as [|b l2 Hs2 Hb].
    + symmetry in HP. apply Permutation_nil in HP. discriminate.
    + assert (a = b) as <-.
      { rewrite Forall_forall in Ha, Hb.
        assert (In a (b :: l2)) as Hab
            by (apply (Permutation_in _ HP); now left).
        assert (In b (a :: l1)) as Hba
            by (apply (Permutation_in _ (Permutation_sym HP)); now left).
        destruct Hab as [->|Hab]; [reflexivity|].
        destruct Hba as [->|Hba]; [reflexivity|].
        specialize (Ha _ Hba). specialize (Hb _ Hab). lia. }
      f_equal. apply IH; [assumption|].
      now apply Permutation_cons_inv in HP.
Qed.

Lemma range_sorted lo hi : StronglySorted Z.le (range lo hi).
Proof.
  unfold range. generalize (Z.to_nat (hi - lo)) as k. intros k.
  generalize 0%nat as s. induction k as [|k IH]; intros s; cbn [seq map].
  - constructor.
  - constructor; [apply IH|].
    rewrite Forall_forall. intros z Hz.
    apply in_map_iff in Hz. destruct Hz as (i & <- & Hi).
    apply in_seq in Hi. lia.
Qed.

Lemma sort_ints_range l n :
  sort_ints l = range 0 n <-> Permutation l (range 0 n).
Proof.
  split.
  - intros E. rewrite <- E. symmetry. apply sort_ints_perm.
  - intros HP. apply sorted_perm_unique.
    + apply sort_ints_sorted.
    + apply range_sorted.
    + rewrite sort_ints_perm. exact HP.
Qed.

Lemma items_eq_ints_iff l m : items_eq_ints (map IInt l) m = true <-> l = m.
Proof.
  revert m. induction l as [|x l IH]; intros [|y m]; cbn [map items_eq_ints item_eq_int];
    try (split; [discriminate|discriminate]); [tauto|].
  rewrite andb_true_iff, Z.eqb_eq, IH. split.
  - intros [-> ->]. reflexivity.
  - intros E. now inversion E.
Qed.

Lemma is_permutation_perm self candidate :
  is_permutation self candidate ->
  Permutation candidate (range 0 (nb_positions self)).
Proof.
  intros (Hlen & Hnd & Hin).
  apply NoDup_Permutation_bis; [assumption| |].
  - pose proof (len_range 0 (nb_positions self)) as Hr.
    pose proof (len_nonneg candidate).
    unfold len in *. lia.
  - intros x Hx. apply In_range. rewrite Forall_forall in Hin. now apply Hin.
Qed.

Lemma perm_is_permutation self candidate :
  len candidate = nb_positions self ->
  Permutation candidate (range 0 (nb_positions self)) ->
  is_permutation self candidate.
Proof.
  intros Hlen HP. split; [assumption|split].
  - apply (Permutation_NoDup (Permutation_sym HP)), NoDup_range.
  - rewrite Forall_forall. intros x Hx. apply In_range.
    now apply (Permutation_in _ HP).
Qed.

Lemma range_app lo m hi :
  lo <= m <= hi -> range lo hi = range lo m ++ range m hi.
Proof.
  intros H. remember (Z.to_nat (m - lo)) as k eqn:Hk.
  revert lo H Hk. induction k as [|k IH]; intros lo H Hk.
  - assert (lo = m) as -> by lia. now rewrite (range_empty m m) by lia.
  - rewrite (range_cons lo hi), (range_cons lo m) by lia.
    cbn [app]. f_equal. apply IH; lia.
Qed.

Lemma range_split lo p hi :
  lo <= p < hi -> range lo hi = range lo p ++ p :: range (p + 1) hi.
Proof.
  intros H. rewrite (range_app lo p hi) by lia.
  now rewrite (range_cons p hi) by lia.
Qed.

Lemma range_shift lo hi d :
  range (lo + d) (hi + d) = map (fun k => d + k) (range lo hi).
Proof.
  unfold range. rewrite map_map.
  replace (hi + d - (lo + d)) with (hi - lo) by lia.
  apply map_ext. intros i. lia.
Qed.

Lemma count_where_map P (f : Z -> Z) l :
  count_where P (map f l) = count_where (fun x => P (f x)) l.
Proof.
  induction l as [|x l IH]; [reflexivity|].
  cbn [map]. now rewrite !count_where_cons, IH.
Qed.

Lemma foreach_first_Return {A} (l1 l2 : list A) (body : A -> unit -> ctl unit)
      (x : A) (v : Z) :
  (forall y, In y l1 -> body y tt = Next tt \/ body y tt = Return v) ->
  body x tt = Return v ->
  foreach (l1 ++ x :: l2) body tt = Return v.
Proof.
  induction l1 as [|y l1 IH]; intros Hb Hr; cbn [app foreach].
  - now rewrite Hr.
  - destruct (Hb y (or_introl eq_refl)) as [E|E]; rewrite E; cbn [cbind];
      [|reflexivity].
    apply IH; [|assumption]. intros z Hz. apply Hb. now right.
Qed.

(** ** The validity checks *)

Section Checks.

Variable self : CarSequencingColorProblem.

Lemma check_not_sequence solution :
  (forall l, solution <> PyList l) -> (forall l, solution <> PyTuple l) ->
  check_solution self solution = Return PENALTY.
Proof.
  intros HL HT. destruct solution; try reflexivity.
  - now destruct (HL l).
  - now destruct (HT l).
Qed.

Lemma check_wrong_length solution items :
  solution = PyList items \/ solution = PyTuple items ->
  len items <> nb_positions self ->
  check_solution self solution = Return PENALTY.
Proof.
  intros [-> | ->] H; unfold check_solution;
    destruct (Z.eqb_spec (len items) (nb_positions self)); try contradiction;
    reflexivity.
Qed.

Lemma check_not_sorted solution candidate :
  as_sequence solution candidate ->
  sort_ints candidate <> range 0 (nb_positions self) ->
  check_solution self solution = Return PENALTY.
Proof.
  intros Hs Hne.
  destruct (Z.eq_dec (len (map IInt candidate)) (nb_positions self)) as [E|E];
    [|destruct Hs; eapply check_wrong_length; eauto].
  assert (items_eq_ints (map IInt (sort_ints candidate))
            (range 0 (nb_positions self)) = false) as Hf.
  { destruct (items_eq_ints _ _) eqn:Ei; [|reflexivity].
    apply items_eq_ints_iff in Ei. contradiction. }
  destruct Hs as [-> | ->]; unfold check_solution;
    rewrite E, Z.eqb_refl; cbn [negb cbind];
    rewrite sorted_ints; cbn [lift cbind]; rewrite Hf; reflexivity.
Qed.

Lemma check_prefix_moved solution candidate p v :
  as_sequence solution candidate ->
  is_permutation self candidate ->
  0 <= p < start_position self ->
  nth_error candidate (Z.to_nat p) = Some v -> v <> p ->
  check_solution self solution = Return PENALTY.
Proof.
  intros Hs Hperm Hp Hv Hne.
  pose proof (is_permutation_perm _ _ Hperm) as HP.
  apply sort_ints_range in HP.
  destruct Hperm as (Hlen & _ & _).
  assert (Hlt : (Z.to_nat p < length candidate)%nat)
    by (apply nth_error_Some; congruence).
  assert (foreach (range 0 (start_position self))
            (fun q _ =>
               w <- lift (getitem (map IInt candidate) q) ;;
               if negb (item_eq_int w q) then Return PENALTY else Next tt) tt
          = Return PENALTY) as Hloop.
  { rewrite (range_split 0 p (start_position self)) by lia.
    apply foreach_first_Return.
    - intros q Hq. apply In_range in Hq.
      rewrite (getitem_Ok _ q (IInt 0)) by (rewrite len_map; unfold len; lia).
      cbn [lift cbind].
      change (IInt 0) with (IInt 0%Z). rewrite (map_nth IInt).
      cbn [item_eq_int]. destruct (_ =? q); cbn [negb]; auto.
    - rewrite (getitem_nth_error _ p (IInt v)) by
          (try lia; now apply map_nth_error).
      cbn [lift cbind item_eq_int].
      destruct (Z.eqb_spec v p); [contradiction|reflexivity]. }
  destruct Hs as [-> | ->]; unfold check_solution;
    rewrite len_map, Hlen, Z.eqb_refl; cbn [negb cbind];
    rewrite sorted_ints; cbn [lift cbind]; rewrite HP;
    rewrite (proj2 (items_eq_ints_iff _ _) eq_refl); cbn [negb cbind];
    rewrite Hloop; reflexivity.
Qed.

Lemma check_valid solution candidate :
  as_sequence solution candidate ->
  valid_candidate self candidate ->
  check_solution self solution = Next (map IInt candidate).
Proof.
  intros Hs [Hperm Hpre].
  pose proof (is_permutation_perm _ _ Hperm) as HP.
  apply sort_ints_range in HP.
  destruct Hperm as (Hlen & _ & _).
  assert (foreach (range 0 (start_position self))
            (fun q _ =>
               w <- lift (getitem (map IInt candidate) q) ;;
               if negb (item_eq_int w q) then Return PENALTY else Next tt) tt
          = Next tt) as Hloop.
  { apply foreach_unit. intros q Hq. apply In_range in Hq.
    rewrite (getitem_nth_error _ q (IInt q)) by
        (try lia; apply map_nth_error, Hpre; lia).
    cbn [lift cbind item_eq_int]. now rewrite Z.eqb_refl. }
  destruct Hs as [-> | ->]; unfold check_solution;
    rewrite len_map, Hlen, Z.eqb_refl; cbn [negb cbind];
    rewrite sorted_ints; cbn [lift cbind]; rewrite HP;
    rewrite (proj2 (items_eq_ints_iff _ _) eq_refl); cbn [negb cbind];
    rewrite Hloop; reflexivity.
Qed.

End Checks.

(** ** The objectives on a valid candidate *)

Section Objectives.

Variable self : CarSequencingColorProblem.
Variable candidate : list Z.
Hypothesis Hinst : valid_instance self.
Hypothesis Hperm : is_permutation self candidate.

Lemma len_sequence_of : len (sequence_of self candidate) = nb_positions self.
Proof. unfold sequence_of. rewrite len_map. apply Hperm. Qed.

Lemma nth_sequence_of p :
  0 <= p < nb_positions self ->
  nth (Z.to_nat p) (sequence_of self candidate) 0 = class_at self candidate p.
Proof.
  intros Hp. unfold sequence_of, class_at.
  destruct Hperm as (Hlen & _ & _). unfold len in Hlen.
  set (f := fun i => nth (Z.to_nat i) (initial_sequence self) 0).
  rewrite nth_indep with (d' := f 0) by (rewrite length_map; lia).
  now rewrite (map_nth f).
Qed.

Lemma candidate_in_range p :
  0 <= p < nb_positions self ->
  0 <= nth (Z.to_nat p) candidate 0 < nb_positions self.
Proof.
  intros Hp. destruct Hperm as (Hlen & _ & Hin). unfold len in Hlen.
  rewrite Forall_forall in Hin. apply Hin, nth_In. lia.
Qed.

Lemma class_at_valid p :
  0 <= p < nb_positions self ->
  0 <= class_at self candidate p < len (color_class self).
Proof.
  intros Hp. destruct Hinst as (_ & Hlen & Hcls & _).
  rewrite Forall_forall in Hcls. apply Hcls. unfold class_at. apply nth_In.
  pose proof (candidate_in_range p Hp). unfold len in Hlen. lia.
Qed.

Lemma build_sequence_valid :
  build_sequence self (map IInt candidate) = Ok (sequence_of self candidate).
Proof.
  unfold build_sequence, sequence_of.
  rewrite <- (map_map IInt (fun a => match a with
                                     | IInt i => nth (Z.to_nat i) (initial_sequence self) 0
                                     | _ => 0 end)).
  apply comprehension_Ok. intros a Ha.
  apply in_map_iff in Ha. destruct Ha as (i & <- & Hi).
  cbn [getitem_at]. apply getitem_Ok.
  destruct Hperm as (_ & _ & Hin). rewrite Forall_forall in Hin.
  destruct Hinst as (_ & Hlen & _). rewrite Hlen. now apply Hin.
Qed.

Lemma get_class p :
  0 <= p < nb_positions self ->
  getitem (sequence_of self candidate) p = Ok (class_at self candidate p).
Proof.
  intros Hp. rewrite (getitem_Ok _ p 0) by (now rewrite len_sequence_of).
  now rewrite nth_sequence_of.
Qed.

Lemma objective_color_valid :
  objective_color self (sequence_of self candidate)
  = Next (color_changes self candidate).
Proof.
  unfold objective_color, color_changes, interval.
  replace (nb_positions self - 2 + 1) with (nb_positions self - 1) by lia.
  rewrite foreach_Next with
    (f := fun c p => if negb (color_of self (class_at self candidate p)
                              =? color_of self (class_at self candidate (p + 1)))
                     then c + 1 else c).
  - now rewrite fold_count.
  - intros p c Hp. apply In_range in Hp.
    rewrite !get_class by lia. cbn [lift cbind].
    rewrite !(getitem_Ok (color_class self) _ 0) by (apply class_at_valid; lia).
    cbn [lift cbind]. unfold color_of. now destruct (negb _).
Qed.

Lemma window_count_valid o j :
  0 <= o < nb_options self ->
  0 <= j -> j + window_of self o <= nb_positions self ->
  window_count self (sequence_of self candidate) o (window_of self o) j
  = Next (window_occupancy self candidate o j).
Proof.
  intros Ho Hj Hw. unfold window_count, window_occupancy, interval.
  rewrite foreach_Next with
    (f := fun c k => if requires self (class_at self candidate (j + k)) o
                     then c + 1 else c).
  - rewrite fold_count. cbn [Z.add].
    replace (j + window_of self o - 1 + 1) with (window_of self o + j) by lia.
    change (range j (window_of self o + j))
      with (range (0 + j) (window_of self o + j)).
    now rewrite range_shift, count_where_map.
  - intros k c Hk. apply In_range in Hk.
    rewrite get_class by lia. cbn [lift cbind].
    destruct Hinst as (_ & _ & _ & Hod & _ & _ & _ & Hrows).
    pose proof (class_at_valid (j + k) ltac:(lia)) as Hc.
    rewrite (getitem_Ok (options_data self) _ []) by (rewrite Hod; exact Hc).
    cbn [lift cbind].
    rewrite (getitem_Ok _ o false).
    + cbn [lift cbind]. unfold requires. now destruct (nth _ _ false).
    + rewrite Forall_forall in Hrows. rewrite Hrows; [assumption|].
      apply nth_In. unfold len in Hod, Hc. lia.
Qed.

Lemma fold_windows (prio : bool) (viol : Z -> Z) l acc :
  fold_left (fun acc j => if prio then (fst acc + viol j, snd acc)
                          else (fst acc, snd acc + viol j)) l acc
  = if prio then (fst acc + sum_over l viol, snd acc)
    else (fst acc, snd acc + sum_over l viol).
Proof.
  revert acc. induction l as [|j l IH]; intros [h lw]; cbn [fold_left].
  - destruct prio; cbn; f_equal; lia.
  - rewrite IH, sum_over_cons.
    destruct prio; cbn [fst snd]; f_equal; lia.
Qed.

Lemma fold_add_option l acc :
  fold_left (add_option self candidate) l acc
  = (fst acc + sum_over (filter (is_high_priority self) l)
                 (option_violations self candidate),
     snd acc + sum_over (filter (fun o => negb (is_high_priority self o)) l)
                 (option_violations self candidate)).
Proof.
  revert acc. induction l as [|o l IH]; intros [h lw]; cbn [fold_left filter].
  - cbn. f_equal; lia.
  - rewrite IH. unfold add_option.
    destruct (is_high_priority self o); cbn [negb fst snd];
      rewrite sum_over_cons; f_equal; lia.
Qed.

Lemma objective_options_valid :
  objective_options self (sequence_of self candidate)
  = Next (high_priority_total self candidate, low_priority_total self candidate).
Proof.
  unfold objective_options, high_priority_total, low_priority_total.
  rewrite foreach_Next with (f := add_option self candidate).
  - now rewrite fold_add_option.
  - intros o acc Ho. apply In_range in Ho.
    pose proof Hinst as (_ & _ & _ & _ & Hcap & Hwin & Hprio & _).
    rewrite (getitem_Ok (window_size self) o 0) by (rewrite Hwin; lia).
    cbn [lift cbind]. fold (window_of self o).
    rewrite (getitem_Ok (max_cars_per_window self) o 0) by (rewrite Hcap; lia).
    cbn [lift cbind]. fold (capacity_of self o).
    rewrite foreach_Next with
      (f := fun acc j =>
              if is_high_priority self o
              then (fst acc + window_violation self candidate o j, snd acc)
              else (fst acc, snd acc + window_violation self candidate o j)).
    + rewrite fold_windows. unfold add_option, option_violations, interval.
      reflexivity.
    + intros j acc' Hj. apply In_range in Hj.
      rewrite window_count_valid by lia. cbn [cbind].
      rewrite (getitem_Ok (is_priority_option self) o false) by (rewrite Hprio; lia).
      cbn [lift cbind]. fold (is_high_priority self o).
      unfold window_violation. now destruct (is_high_priority self o).
Qed.

End Objectives.

Lemma combine_combined_score order c h l :
  combine order c h l = combined_score order c h l.
Proof.
  unfold combine, combined_score, COLOR_HIGH_LOW, HIGH_LOW_COLOR, HIGH_COLOR_LOW,
    COLOR_HIGH, HIGH_COLOR, M.
  destruct order as [|p|p]; try reflexivity.
  do 3 (destruct p as [p|p|]; try reflexivity).
Qed.

(** The whole evaluation of a valid candidate on a valid instance. *)
Lemma evaluate_valid self solution candidate :
  valid_instance self ->
  as_sequence solution candidate ->
  valid_candidate self candidate ->
  evaluate_solution self solution
  = Ok (combine (objective_order self)
          (color_changes self candidate)
          (high_priority_total self candidate)
          (low_priority_total self candidate)).
Proof.
  intros Hi Hs Hv. unfold evaluate_solution, evaluate_body.
  rewrite (check_valid self solution candidate Hs Hv). cbn [cbind].
  destruct Hv as [Hp _].
  rewrite (build_sequence_valid self candidate Hi Hp). cbn [lift cbind].
  rewrite (objective_color_valid self candidate Hi Hp). cbn [cbind].
  rewrite (objective_options_valid self candidate Hi Hp). cbn [cbind call].
  reflexivity.
Qed.

(** ** Non-negativity of the components *)

Lemma color_changes_nonneg self candidate : 0 <= color_changes self candidate.
Proof. apply count_where_nonneg. Qed.

Lemma option_violations_nonneg self candidate o :
  0 <= option_violations self candidate o.
Proof.
  apply sum_over_nonneg. intros j _. unfold window_violation. lia.
Qed.

Lemma high_priority_total_nonneg self candidate :
  0 <= high_priority_total self candidate.
Proof. apply sum_over_nonneg. intros o _. apply option_violations_nonneg. Qed.

Lemma low_priority_total_nonneg self candidate :
  0 <= low_priority_total self candidate.
Proof. apply sum_over_nonneg. intros o _. apply option_violations_nonneg. Qed.

(** ** Closed goals about concrete instances and candidates *)

Ltac concrete_list :=
  repeat match goal with
         | |- Forall _ _ => constructor
         | |- NoDup _ => constructor
         | |- ~ In _ _ => cbn [In]; intuition discriminate
         | |- _ <= _ < _ => vm_compute; intuition discriminate
         | |- _ = _ => reflexivity
         end.

Ltac concrete_instance :=
  unfold valid_instance; repeat split; try (vm_compute; congruence); concrete_list.

Ltac concrete_candidate :=
  split;
  [ unfold is_permutation; repeat split; concrete_list
  | intros p Hp; cbn in Hp; try lia ].

(** ** The evaluator on valid candidates *)

(** C1. On a valid instance and a valid candidate, the loop over the options
    leaves in (objective_high_priority, objective_low_priority) the sums, over
    the high-priority and the low-priority options, of the violations
    [max(count - cap, 0)] of every window starting at
    [max(0, start_position - w + 1) .. position_count - w], where [count] is
    the number of positions of the window whose reconstructed class requires
    the option.  On three cars of class 0 and one option of window 2 and
    capacity 1 that class requires, that total is 2, on the side the
    option's priority selects. *)
Theorem option_window_totals :
  (forall self candidate,
      valid_instance self -> valid_candidate self candidate ->
      exists sequence,
        build_sequence self (map IInt candidate) = Ok sequence /\
        objective_options self sequence
        = Next (high_priority_total self candidate,
                low_priority_total self candidate)) /\
  (forall order,
      option_violations (dense3 order true) [0; 1; 2] 0 = 2 /\
      objective_options (dense3 order true) [0; 0; 0] = Next (2, 0) /\
      objective_options (dense3 order false) [0; 0; 0] = Next (0, 2)).
Proof.
  split.
  - intros self candidate Hi [Hp _]. exists (sequence_of self candidate). split.
    + now apply build_sequence_valid.
    + now apply objective_options_valid.
  - intros order. repeat split.
Qed.

Lemma option_window_totals_witness :
  exists sequence,
    build_sequence (dense3 0 false) (map IInt [0; 2; 1]) = Ok sequence /\
    objective_options (dense3 0 false) sequence
    = Next (high_priority_total (dense3 0 false) [0; 2; 1],
            low_priority_total (dense3 0 false) [0; 2; 1]).
Proof.
  apply (proj1 option_window_totals (dense3 0 false) [0; 2; 1]).
  - concrete_instance.
  - concrete_candidate.
Defined.

(** C2. On a valid instance and a valid candidate, the colour counter ends at
    the number of positions [p] in [max(start_position - 1, 0) ..
    position_count - 2] where the colours of the reconstructed classes at [p]
    and [p + 1] differ, the class at [p] being
    [baseline_sequence[candidate[p]]].  The identity on the alternating
    five-car instance has 4 colour changes and, under the fallback order
    code, scores 4. *)
Theorem color_change_count :
  (forall self candidate,
      valid_instance self -> valid_candidate self candidate ->
      exists sequence,
        build_sequence self (map IInt candidate) = Ok sequence /\
        (forall p, 0 <= p < nb_positions self ->
                   getitem sequence p
                   = getitem (initial_sequence self) (nth (Z.to_nat p) candidate 0)) /\
        objective_color self sequence = Next (color_changes self candidate)) /\
  objective_color (alternating5 5) [0; 1; 0; 1; 0] = Next 4 /\
  evaluate_solution (alternating5 5) (PyList (map IInt [0; 1; 2; 3; 4])) = Ok 4.
Proof.
  split; [|split; reflexivity].
  intros self candidate Hi [Hp _]. exists (sequence_of self candidate).
  split; [|split].
  - now apply build_sequence_valid.
  - intros p Hpos. rewrite (get_class self candidate Hp p Hpos).
    pose proof (candidate_in_range self candidate Hp p Hpos) as Hc.
    destruct Hi as (_ & Hlen & _).
    rewrite (getitem_Ok _ _ 0) by (rewrite Hlen; exact Hc). reflexivity.
  - now apply objective_color_valid.
Qed.

Lemma color_change_count_witness :
  exists sequence,
    build_sequence (alternating5 5) (map IInt [4; 3; 2; 1; 0]) = Ok sequence /\
    (forall p, 0 <= p < nb_positions (alternating5 5) ->
               getitem sequence p
               = getitem (initial_sequence (alternating5 5))
                   (nth (Z.to_nat p) [4; 3; 2; 1; 0] 0)) /\
    objective_color (alternating5 5) sequence
    = Next (color_changes (alternating5 5) [4; 3; 2; 1; 0]).
Proof.
  apply (proj1 color_change_count (alternating5 5) [4; 3; 2; 1; 0]).
  - concrete_instance.
  - concrete_candidate.
Defined.

(** C3. On a valid instance and a valid candidate, [evaluate_solution]
    returns the three totals combined by the instance's order code with
    M = 10000: code 0 gives color*M^2 + high*M + low, code 1
    high*M^2 + low*M + color, code 2 high*M^2 + color*M + low, code 3
    color*M + high, code 4 high*M + color, any other code
    color + high + low.  The alternating five-car instance under code 3
    scores 40000. *)
Theorem combined_score_by_order :
  (forall self solution candidate,
      valid_instance self ->
      as_sequence solution candidate ->
      valid_candidate self candidate ->
      let color := color_changes self candidate in
      let high := high_priority_total self candidate in
      let low := low_priority_total self candidate in
      evaluate_solution self solution
      = Ok (match objective_order self with
            | 0 => color * 10000 ^ 2 + high * 10000 + low
            | 1 => high * 10000 ^ 2 + low * 10000 + color
            | 2 => high * 10000 ^ 2 + color * 10000 + low
            | 3 => color * 10000 + high
            | 4 => high * 10000 + color
            | _ => color + high + low
            end)) /\
  evaluate_solution (alternating5 3) (PyList (map IInt [0; 1; 2; 3; 4])) = Ok 40000.
Proof.
  split; [|reflexivity].
  intros self solution candidate Hi Hs Hv color high low.
  rewrite (evaluate_valid self solution candidate Hi Hs Hv).
  now rewrite combine_combined_score.
Qed.

Lemma combined_score_by_order_witness :
  evaluate_solution (dense3 1 true) (PyTuple (map IInt [2; 0; 1]))
  = Ok (high_priority_total (dense3 1 true) [2; 0; 1] * 10000 ^ 2
        + low_priority_total (dense3 1 true) [2; 0; 1] * 10000
        + color_changes (dense3 1 true) [2; 0; 1]).
Proof.
  apply (proj1 combined_score_by_order (dense3 1 true)
           (PyTuple (map IInt [2; 0; 1])) [2; 0; 1]).
  - concrete_instance.
  - now right.
  - concrete_candidate.
Defined.

(** ** Rejected candidates *)

Lemma evaluate_rejected self solution v :
  check_solution self solution = Return v ->
  evaluate_solution self solution = Ok v.
Proof.
  intros H. unfold evaluate_solution, evaluate_body. now rewrite H.
Qed.

(** C4. A candidate whose length is not [position_count], or whose sorted
    contents are not [0 .. position_count - 1] (a duplicate, an omission or a
    value out of range), is scored [PENALTY]; nothing is raised. *)
Theorem malformed_candidate_penalty self solution candidate :
  as_sequence solution candidate ->
  len candidate <> nb_positions self \/
  sort_ints candidate <> range 0 (nb_positions self) \/
  ~ is_permutation self candidate ->
  evaluate_solution self solution = Ok PENALTY.
Proof.
  intros Hs H. apply evaluate_rejected.
  destruct (Z.eq_dec (len candidate) (nb_positions self)) as [Hlen|Hlen].
  - destruct (list_eq_dec Z.eq_dec (sort_ints candidate)
                (range 0 (nb_positions self))) as [Hsort|Hsort].
    + exfalso. destruct H as [H|[H|H]]; [contradiction..|].
      apply H, perm_is_permutation; [assumption|].
      now apply sort_ints_range.
    + now apply (check_not_sorted self solution candidate).
  - apply (check_wrong_length self solution (map IInt candidate)).
    + exact Hs.
    + now rewrite len_map.
Qed.

Lemma malformed_candidate_penalty_witness :
  evaluate_solution (alternating5 0) (PyList (map IInt [0; 1; 2; 5; 3])) = Ok PENALTY.
Proof.
  apply (malformed_candidate_penalty (alternating5 0) _ [0; 1; 2; 5; 3]).
  - now left.
  - right. left. vm_compute. discriminate.
Defined.

(** C5. A permutation of [0 .. position_count - 1] that moves a position of
    the fixed prefix, [candidate[p] != p] for some [p < start_position], is
    scored [PENALTY]. *)
Theorem moved_prefix_penalty self solution candidate p v :
  as_sequence solution candidate ->
  is_permutation self candidate ->
  0 <= p < start_position self ->
  nth_error candidate (Z.to_nat p) = Some v ->
  v <> p ->
  evaluate_solution self solution = Ok PENALTY.
Proof.
  intros Hs Hperm Hp Hv Hne. apply evaluate_rejected.
  now apply (check_prefix_moved self solution candidate p v).
Qed.

Lemma moved_prefix_penalty_witness :
  evaluate_solution (prefixed4 0) (PyList (map IInt [0; 2; 1; 3])) = Ok PENALTY.
Proof.
  apply (moved_prefix_penalty (prefixed4 0) _ [0; 2; 1; 3] 1 2).
  - now left.
  - unfold is_permutation; repeat split; concrete_list.
  - vm_compute; intuition discriminate.
  - reflexivity.
  - discriminate.
Defined.

(** C10, as the code has it.  An input that is neither a list nor a tuple is
    scored [PENALTY]: the type guard comes before any use of the length or
    the contents. *)
Theorem not_a_sequence_penalty self solution :
  (forall items, solution <> PyList items) ->
  (forall items, solution <> PyTuple items) ->
  evaluate_solution self solution = Ok PENALTY.
Proof.
  intros HL HT. apply evaluate_rejected. now apply check_not_sequence.
Qed.

Lemma not_a_sequence_penalty_witness :
  evaluate_solution (alternating5 0) (PySet [IInt 0; IInt 1; IInt 2; IInt 3; IInt 4])
  = Ok PENALTY.
Proof.
  apply not_a_sequence_penalty; intros items; discriminate.
Defined.

(** C10, as stated, fails: a list of the right length whose items cannot be
    ordered makes [sorted] raise. *)
Lemma some_input_raises :
  ~ (forall self solution,
        exists score, evaluate_solution self solution = Ok score).
Proof.
  intros H.
  destruct (H (alternating5 0)
              (PyList [IInt 0; IStr "a"; IInt 2; IInt 3; IInt 4])) as [score E].
  vm_compute in E. discriminate.
Qed.

(** ** A score of zero *)

Lemma combine_zero order c h l :
  0 <= c -> 0 <= h -> 0 <= l ->
  (combine order c h l = 0 <->
   c = 0 /\ h = 0 /\ (order = COLOR_HIGH \/ order = HIGH_COLOR \/ l = 0)).
Proof.
  intros Hc Hh Hl. unfold combine, COLOR_HIGH_LOW, HIGH_LOW_COLOR, HIGH_COLOR_LOW,
    COLOR_HIGH, HIGH_COLOR, M.
  repeat match goal with
         | |- context [?a =? ?b] => destruct (Z.eqb_spec a b)
         end; subst; lia.
Qed.

(** C8, as the code has it.  On a valid instance and a valid candidate the
    score is zero exactly when there is no colour change, no high-priority
    violation and, unless the order code is one of the two-term codes 3 and
    4 (which leave the low-priority total out of the score), no low-priority
    violation. *)
Theorem zero_score_iff self solution candidate :
  valid_instance self ->
  as_sequence solution candidate ->
  valid_candidate self candidate ->
  (evaluate_solution self solution = Ok 0 <->
   color_changes self candidate = 0 /\
   high_priority_total self candidate = 0 /\
   (objective_order self = 3 \/ objective_order self = 4 \/
    low_priority_total self candidate = 0)).
Proof.
  intros Hi Hs Hv. rewrite (evaluate_valid self solution candidate Hi Hs Hv).
  rewrite <- (combine_zero (objective_order self))
    by (apply color_changes_nonneg || apply high_priority_total_nonneg
        || apply low_priority_total_nonneg).
  split; [intros E; now inversion E | now intros ->].
Qed.

Lemma zero_score_iff_witness :
  evaluate_solution (dense3 4 false) (PyList (map IInt [0; 1; 2])) = Ok 0 <->
  color_changes (dense3 4 false) [0; 1; 2] = 0 /\
  high_priority_total (dense3 4 false) [0; 1; 2] = 0 /\
  (objective_order (dense3 4 false) = 3 \/ objective_order (dense3 4 false) = 4 \/
   low_priority_total (dense3 4 false) [0; 1; 2] = 0).
Proof.
  apply (zero_score_iff (dense3 4 false) _ [0; 1; 2]).
  - concrete_instance.
  - now left.
  - concrete_candidate.
Defined.

(** The instance of the next lemma is one the loader produces. *)
Lemma dense3_loads :
  _load_instance int_of_decimal dense3_tokens = Ok (dense3 3 false).
Proof. reflexivity. Qed.

(** C8, as stated, fails: under the order code 3 a candidate with two
    low-priority violations scores zero, on an instance whose flag
    [has_low_priority_options] agrees with its options. *)
Lemma zero_score_with_violations :
  ~ (forall self solution candidate,
        valid_instance self ->
        has_low_priority_options self = existsb negb (is_priority_option self) ->
        as_sequence solution candidate ->
        valid_candidate self candidate ->
        (evaluate_solution self solution = Ok 0 <->
         color_changes self candidate = 0 /\
         high_priority_total self candidate = 0 /\
         low_priority_total self candidate = 0)).
Proof.
  intros H.
  assert (low_priority_total (dense3 3 false) [0; 1; 2] = 0) as E.
  { apply (H (dense3 3 false) (PyList (map IInt [0; 1; 2])) [0; 1; 2]).
    - concrete_instance.
    - reflexivity.
    - now left.
    - concrete_candidate.
    - reflexivity. }
  vm_compute in E. discriminate.
Qed.

(** ** The sentinel against real scores *)

(** Where a real score stays below the sentinel: every total below [M] and,
    under a three-term order code, a leading total of at most 9. *)
Lemma score_below_penalty order c h l :
  0 <= c < M -> 0 <= h < M -> 0 <= l < M ->
  (order = COLOR_HIGH_LOW -> c <= 9) ->
  (order = HIGH_LOW_COLOR \/ order = HIGH_COLOR_LOW -> h <= 9) ->
  combine order c h l < PENALTY.
Proof.
  unfold combine, COLOR_HIGH_LOW, HIGH_LOW_COLOR, HIGH_COLOR_LOW, COLOR_HIGH,
    HIGH_COLOR, M, PENALTY.
  intros Hc Hh Hl H0 H12.
  repeat match goal with
         | |- context [?a =? ?b] => destruct (Z.eqb_spec a b)
         end; subst; lia.
Qed.

(** C6 fails on the code.  Ten colour changes under the order colour, high,
    low are worth 10 * M^2 = 10^9: the identity on eleven alternating cars, a
    valid candidate of a valid instance, is scored exactly [PENALTY], the
    score of an invalid candidate; with six low-priority violations added the
    real score exceeds it. *)
Theorem valid_score_reaches_penalty :
  valid_instance alternating11 /\
  has_low_priority_options alternating11
  = existsb negb (is_priority_option alternating11) /\
  valid_candidate alternating11 (range 0 11) /\
  evaluate_solution alternating11 (PyList (map IInt (range 0 11))) = Ok PENALTY /\
  evaluate_solution alternating11 (PyList []) = Ok PENALTY /\
  valid_instance alternating11_tight /\
  valid_candidate alternating11_tight (range 0 11) /\
  evaluate_solution alternating11_tight (PyList (map IInt (range 0 11)))
  = Ok (PENALTY + 6).
Proof.
  assert (range 0 11 = [0; 1; 2; 3; 4; 5; 6; 7; 8; 9; 10]) as -> by reflexivity.
  split; [concrete_instance|].
  split; [reflexivity|].
  split; [concrete_candidate|].
  split; [reflexivity|].
  split; [reflexivity|].
  split; [concrete_instance|].
  split; [concrete_candidate|reflexivity].
Qed.

(** ** Instance construction and the objective order *)

Lemma rd_bind_Ok {A B} (c : reader A) (k : A -> reader B) it r :
  rd_bind c k it = Ok r ->
  exists a it1, c it = Ok (a, it1) /\ k a it1 = Ok r.
Proof.
  unfold rd_bind. destruct (c it) as [[a it1]|e]; [|discriminate].
  intros H. now exists a, it1.
Qed.

Lemma next_int_Ok py_int it v it' :
  next_int py_int it = Ok (v, it') ->
  exists t, it = t :: it' /\ py_int t = Ok v.
Proof.
  unfold next_int. destruct it as [|t it0]; [discriminate|].
  destruct (py_int t) as [w|e] eqn:Et; cbn [rbind]; [|discriminate].
  intros H. inversion H; subst. now exists t.
Qed.

Ltac rd_step H a E :=
  let it := fresh "it" in
  apply rd_bind_Ok in H; destruct H as (a & it & E & H).

Lemma read_options_has_low py_int l acc it r it' :
  rd_foreach l
    (fun (_ : Z) '(max_cars_per_window, window_size, is_priority_option, has_low) =>
       m <<- next_int py_int ;;
       w <<- next_int py_int ;;
       p <<- next_int py_int ;;
       let prio := p =? 1 in
       rd_ret (max_cars_per_window ++ [m], window_size ++ [w],
               is_priority_option ++ [prio],
               if negb prio then true else has_low)) acc it = Ok (r, it') ->
  snd acc = existsb negb (snd (fst acc)) ->
  snd r = existsb negb (snd (fst r)).
Proof.
  revert acc it. induction l as [|o l IH]; intros [[[mx ws] pr] hl] it H Hacc.
  - cbn in H. inversion H; subst. exact Hacc.
  - cbn [rd_foreach] in H. rd_step H acc' E.
    apply (IH _ _ H). clear H IH.
    rd_step E m Hm. rd_step E w Hw. rd_step E q Hq.
    unfold rd_ret in E. inversion E; subst.
    cbn [fst snd] in *. rewrite existsb_app. cbn [existsb]. rewrite Hacc.
    destruct (_ =? 1); cbn [negb]; now rewrite ?orb_true_r, ?orb_false_r.
Qed.

(** What the file path does: the flag is derived from the options read, and
    the order code read from the fifth token is adjusted by it. *)
Lemma load_instance_adjusts py_int tokens self :
  _load_instance py_int tokens = Ok self ->
  has_low_priority_options self = existsb negb (is_priority_option self) /\
  exists t code,
    nth_error tokens 4 = Some t /\ py_int t = Ok code /\
    objective_order self
    = adjust_objective_order (has_low_priority_options self) code.
Proof.
  unfold _load_instance. intros H.
  match type of H with
  | match ?b tokens with _ => _ end = _ =>
      destruct (b tokens) as [[self' rest]|e] eqn:Hb; [|discriminate]
  end.
  inversion H; subst self'; clear H.
  rd_step Hb n E0. apply next_int_Ok in E0 as (t0 & -> & _).
  rd_step Hb no E1. apply next_int_Ok in E1 as (t1 & -> & _).
  rd_step Hb nc E2. apply next_int_Ok in E2 as (t2 & -> & _).
  rd_step Hb pbl E3. apply next_int_Ok in E3 as (t3 & -> & _).
  rd_step Hb code E4. apply next_int_Ok in E4 as (t4 & -> & Hcode).
  rd_step Hb sp E5. apply next_int_Ok in E5 as (t5 & -> & _).
  rd_step Hb opts Eo. destruct opts as [[[mx ws] pr] hl].
  rd_step Hb cls Ec. destruct cls as [[cc nb] od].
  rd_step Hb iseq Es.
  destruct (negb _); [discriminate|].
  unfold rd_ret in Hb. inversion Hb; subst; cbn.
  split.
  - apply (read_options_has_low _ _ _ _ _ _ Eo). reflexivity.
  - exists t4, code. repeat split. assumption.
Qed.

(** C7 fails on the code.  Given a three-term order code and
    [has_low_priority_options = False] as keyword arguments, the constructor
    stores the code as it is; the file of the same instance loads with the
    two-term code. *)
Theorem init_keeps_three_term_order :
  (forall py_int, __init__ py_int (grouped5_args COLOR_HIGH_LOW)
                  = Ok (grouped5 COLOR_HIGH_LOW)) /\
  has_low_priority_options (grouped5 COLOR_HIGH_LOW) = false /\
  objective_order (grouped5 COLOR_HIGH_LOW) = COLOR_HIGH_LOW /\
  _load_instance int_of_decimal grouped5_tokens = Ok (grouped5 COLOR_HIGH).
Proof.
  repeat split.
Qed.

(** ** random_solution *)

Lemma getitem_app {A} (a r : list A) (y : A) i :
  len a = i -> getitem (a ++ y :: r) i = Ok y.
Proof.
  intros <-. apply getitem_nth_error; [apply len_nonneg|].
  unfold len. rewrite Nat2Z.id, nth_error_app2, Nat.sub_diag by lia. reflexivity.
Qed.

Lemma setitem_app {A} (a r : list A) (y v : A) i :
  len a = i -> setitem (a ++ y :: r) i v = Ok (a ++ v :: r).
Proof.
  intros <-. unfold setitem.
  pose proof (len_nonneg a) as Ha.
  assert (len a < len (a ++ y :: r)) as Hlt
    by (unfold len; rewrite length_app; cbn [length]; lia).
  destruct (Z.ltb_spec (len a) 0); [lia|].
  destruct (Z.leb_spec 0 (len a)); [|lia].
  destruct (Z.ltb_spec (len a) (len (a ++ y :: r))); [|lia]. cbn [andb].
  unfold len. rewrite Nat2Z.id.
  rewrite firstn_app, firstn_all, Nat.sub_diag. cbn [firstn]. rewrite app_nil_r.
  rewrite skipn_app, skipn_all2 by lia.
  replace (S (length a) - length a)%nat with 1%nat by lia. reflexivity.
Qed.

Lemma split_at {A} (x : list A) i :
  0 <= i < len x ->
  exists a y r, x = a ++ y :: r /\ len a = i.
Proof.
  intros Hi. unfold len in *.
  destruct (nth_error x (Z.to_nat i)) as [y|] eqn:E.
  - apply nth_error_split in E. destruct E as (a & r & -> & Ha).
    exists a, y, r. split; [reflexivity|lia].
  - apply nth_error_None in E. lia.
Qed.

Lemma swap_items_perm x i j :
  0 <= j <= i -> i < len x ->
  exists x', swap_items x i j = Ok x' /\ Permutation x' x.
Proof.
  intros Hj Hi. unfold swap_items.
  destruct (split_at x i ltac:(lia)) as (l1 & xi & c & -> & Hl1).
  destruct (Z.eq_dec j i) as [->|Hne].
  - exists (l1 ++ xi :: c).
    rewrite (getitem_app l1 c xi i Hl1). cbn [rbind].
    rewrite (setitem_app l1 c xi xi i Hl1). cbn [rbind].
    rewrite (setitem_app l1 c xi xi i Hl1). split; reflexivity.
  - destruct (split_at l1 j ltac:(lia)) as (a & xj & b & -> & Ha).
    exists (a ++ xi :: b ++ xj :: c).
    assert (getitem ((a ++ xj :: b) ++ xi :: c) j = Ok xj) as ->
      by (rewrite <- app_assoc; cbn [app]; now apply getitem_app).
    cbn [rbind]. rewrite (getitem_app _ c xi i Hl1). cbn [rbind].
    rewrite (setitem_app _ c xi xj i Hl1). cbn [rbind].
    rewrite <- app_assoc. cbn [app].
    rewrite (setitem_app a _ xj xi j Ha). split; [reflexivity|].
    rewrite <- (app_assoc a (xj :: b) (xi :: c)). cbn [app].
    apply Permutation_app_head.
    rewrite <- (Permutation_middle (xi :: b) c xj).
    rewrite <- (Permutation_middle (xj :: b) c xi).
    cbn [app]. apply perm_swap.
Qed.

Section RandomFacts.

Variable rng : Type.
Variable randbelow : Z -> rng -> Z * rng.
Hypothesis randbelow_range :
  forall n g, 0 < n -> 0 <= fst (randbelow n g) < n.

Lemma shuffle_loop_perm idxs :
  forall x g,
    (forall i, In i idxs -> 0 <= i < len x) ->
    exists x' g', shuffle_loop rng randbelow idxs x g = Ok (x', g') /\
                  Permutation x' x.
Proof.
  induction idxs as [|i idxs IH]; intros x g Hidx; cbn [shuffle_loop].
  - now exists x, g.
  - pose proof (Hidx i (or_introl eq_refl)) as Hi.
    pose proof (randbelow_range (i + 1) g ltac:(lia)) as Hj.
    destruct (randbelow (i + 1) g) as [j g1]. cbn [fst] in Hj.
    destruct (swap_items_perm x i j ltac:(lia) ltac:(lia)) as (x1 & -> & Hp1).
    cbn [rbind].
    destruct (IH x1 g1) as (x' & g' & E & Hp).
    + intros k Hk. unfold len. rewrite (Permutation_length Hp1).
      apply Hidx. now right.
    + exists x', g'. split; [assumption|]. now rewrite Hp.
Qed.

Lemma shuffle_perm x g :
  exists x' g', shuffle rng randbelow x g = Ok (x', g') /\ Permutation x' x.
Proof.
  apply shuffle_loop_perm. intros i Hi.
  apply in_rev, In_range in Hi. lia.
Qed.

(** C9. Whenever [0 <= start_position <= position_count], whatever the
    generator draws, [random_solution] returns a permutation of
    [0 .. position_count - 1] that holds [p] at every position
    [p < start_position], and [evaluate_solution]'s checks let it
    through. *)
Theorem random_solution_valid self g :
  0 <= start_position self <= nb_positions self ->
  exists candidate g',
    random_solution rng randbelow self g = Ok (candidate, g') /\
    Permutation candidate (range 0 (nb_positions self)) /\
    (forall p, 0 <= p < start_position self ->
               getitem candidate p = Ok p) /\
    check_solution self (PyList (map IInt candidate)) = Next (map IInt candidate).
Proof.
  intros Hs. unfold random_solution.
  destruct (shuffle_perm (range (start_position self) (nb_positions self)) g)
    as (rem & g' & -> & Hp).
  cbn [rbind].
  exists (range 0 (start_position self) ++ rem), g'.
  assert (Permutation (range 0 (start_position self) ++ rem)
            (range 0 (nb_positions self))) as HP.
  { rewrite (range_app 0 (start_position self) (nb_positions self)) by lia.
    now apply Permutation_app_head. }
  assert (forall p, 0 <= p < start_position self ->
                    nth_error (range 0 (start_position self) ++ rem) (Z.to_nat p)
                    = Some p) as Hpre.
  { intros p Hp0.
    assert (Z.to_nat p < length (range 0 (start_position self)))%nat as Hlt.
    { pose proof (len_range 0 (start_position self)) as Hl. unfold len in Hl. lia. }
    rewrite nth_error_app1 by exact Hlt.
    rewrite (nth_error_nth' _ 0 Hlt), nth_range by lia. f_equal. lia. }
  split; [reflexivity|]. split; [exact HP|]. split.
  - intros p Hp0. apply getitem_nth_error; [lia|]. now apply Hpre.
  - apply check_valid; [now left|]. split; [|exact Hpre].
    apply perm_is_permutation; [|exact HP].
    unfold len. rewrite (Permutation_length HP).
    pose proof (len_range 0 (nb_positions self)) as Hl. unfold len in Hl. lia.
Qed.

End RandomFacts.

Lemma random_solution_valid_witness :
  exists candidate g',
    random_solution Z lcg_randbelow (prefixed4 0) 2026 = Ok (candidate, g') /\
    Permutation candidate (range 0 (nb_positions (prefixed4 0))) /\
    (forall p, 0 <= p < start_position (prefixed4 0) ->
               getitem candidate p = Ok p) /\
    check_solution (prefixed4 0) (PyList (map IInt candidate))
    = Next (map IInt candidate).
Proof.
  apply (random_solution_valid Z lcg_randbelow).
  - intros n g Hn. cbn [lcg_randbelow fst]. apply Z.mod_pos_bound. exact Hn.
  - vm_compute. intuition discriminate.
Defined.

(** * Further properties of the evaluator *)

Lemma getitem_out_of_range {A} (l : list A) i :
  len l <= i -> getitem l i = Raise IndexError.
Proof.
  intros H. unfold getitem. pose proof (len_nonneg l).
  destruct (Z.ltb_spec i 0); [lia|].
  destruct (Z.ltb_spec i (len l)); [lia|].
  now rewrite andb_false_r.
Qed.

Lemma foreach_first_Throw {A} (l1 l2 : list A) (body : A -> unit -> ctl unit)
      (x : A) (e : exn) :
  (forall y, In y l1 -> body y tt = Next tt) ->
  body x tt = Throw e ->
  foreach (l1 ++ x :: l2) body tt = Throw e.
Proof.
  induction l1 as [|y l1 IH]; intros Hb Hr; cbn [app foreach].
  - now rewrite Hr.
  - rewrite (Hb y (or_introl eq_refl)). cbn [cbind].
    apply IH; [|assumption]. intros z Hz. apply Hb. now right.
Qed.

Lemma identity_is_permutation self :
  0 <= nb_positions self -> is_permutation self (range 0 (nb_positions self)).
Proof.
  intros Hn. split; [|split].
  - rewrite len_range. lia.
  - apply NoDup_range.
  - rewrite Forall_forall. intros x Hx. now apply In_range.
Qed.

Lemma nth_error_range lo hi p :
  0 <= p < hi - lo -> nth_error (range lo hi) (Z.to_nat p) = Some (lo + p).
Proof.
  intros Hp.
  assert (Z.to_nat p < length (range lo hi))%nat as Hlt.
  { pose proof (len_range lo hi) as Hl. unfold len in Hl. lia. }
  rewrite (nth_error_nth' _ 0 Hlt), nth_range by lia. f_equal. lia.
Qed.

Lemma identity_valid self :
  0 <= start_position self <= nb_positions self ->
  valid_candidate self (range 0 (nb_positions self)).
Proof.
  intros Hs. split.
  - apply identity_is_permutation. lia.
  - intros p Hp. rewrite nth_error_range by lia. f_equal.
Qed.

Lemma sequence_of_identity self :
  len (initial_sequence self) = nb_positions self ->
  sequence_of self (range 0 (nb_positions self)) = initial_sequence self.
Proof.
  intros Hlen. unfold sequence_of.
  set (f := fun i => nth (Z.to_nat i) (initial_sequence self) 0).
  pose proof (len_range 0 (nb_positions self)) as Hl. unfold len in Hl, Hlen.
  apply nth_ext with (d := f 0) (d' := 0).
  - rewrite length_map. lia.
  - intros k Hk. rewrite length_map in Hk.
    rewrite (map_nth f), nth_range by lia.
    unfold f. cbn [Z.add]. now rewrite Nat2Z.id.
Qed.

(** Either the prefix is in place or some position of it is moved. *)
Lemma prefix_in_place_or_moved self candidate :
  len candidate = nb_positions self ->
  0 <= start_position self <= nb_positions self ->
  respects_prefix self candidate \/
  exists p v, 0 <= p < start_position self /\
              nth_error candidate (Z.to_nat p) = Some v /\ v <> p.
Proof.
  intros Hlen Hs. unfold respects_prefix.
  assert (forall k : nat,
             Z.of_nat k <= start_position self ->
             (forall p, 0 <= p < Z.of_nat k ->
                        nth_error candidate (Z.to_nat p) = Some p) \/
             exists p v, 0 <= p < start_position self /\
                         nth_error candidate (Z.to_nat p) = Some v /\ v <> p) as H.
  { induction k as [|k IH]; intros Hk.
    - left. intros p Hp. lia.
    - destruct (IH ltac:(lia)) as [Hall|Hex]; [|now right].
      destruct (nth_error candidate k) as [v|] eqn:E.
      + destruct (Z.eq_dec v (Z.of_nat k)) as [->|Hne].
        * left. intros p Hp.
          destruct (Z.eq_dec p (Z.of_nat k)) as [->|Hpk].
          -- now rewrite Nat2Z.id.
          -- apply Hall. lia.
        * right. exists (Z.of_nat k), v. rewrite Nat2Z.id. repeat split; lia || auto.
      + apply nth_error_None in E. unfold len in Hlen. lia. }
  destruct (H (Z.to_nat (start_position self)) ltac:(lia)) as [Hall|Hex];
    [left|now right].
  intros p Hp. apply Hall. lia.
Qed.

(** X1. On a valid instance a list or tuple of integers never makes the
    evaluator raise: it is scored [PENALTY] when it is not a valid candidate
    and by the combination of its three totals when it is; the score is
    never negative. *)
Theorem evaluate_integers_total self solution candidate :
  valid_instance self ->
  as_sequence solution candidate ->
  exists score,
    evaluate_solution self solution = Ok score /\
    0 <= score /\
    (~ valid_candidate self candidate -> score = PENALTY) /\
    (valid_candidate self candidate ->
     score = combine (objective_order self) (color_changes self candidate)
               (high_priority_total self candidate)
               (low_priority_total self candidate)).
Proof.
  intros Hi Hs.
  assert (0 <= combine (objective_order self) (color_changes self candidate)
                 (high_priority_total self candidate)
                 (low_priority_total self candidate)) as Hnn.
  { pose proof (color_changes_nonneg self candidate).
    pose proof (high_priority_total_nonneg self candidate).
    pose proof (low_priority_total_nonneg self candidate).
    unfold combine, M.
    repeat match goal with
           | |- context [?a =? ?b] => destruct (a =? b)
           end; nia. }
  assert (valid_candidate self candidate \/
          evaluate_solution self solution = Ok PENALTY /\
          ~ valid_candidate self candidate) as [Hv|[Hp Hnv]].
  { destruct (Z.eq_dec (len candidate) (nb_positions self)) as [Hlen|Hlen].
    - destruct (list_eq_dec Z.eq_dec (sort_ints candidate)
                  (range 0 (nb_positions self))) as [Hsort|Hsort].
      + assert (is_permutation self candidate) as Hperm
            by (apply perm_is_permutation; [|apply sort_ints_range]; assumption).
        destruct (prefix_in_place_or_moved self candidate Hlen (proj1 Hi))
          as [Hpre|(p & v & Hp & Hv & Hne)].
        * left. now split.
        * right. split.
          -- apply evaluate_rejected.
             now apply (check_prefix_moved self solution candidate p v).
          -- intros [_ Hpre]. rewrite (Hpre p Hp) in Hv. congruence.
      + right. split.
        * apply evaluate_rejected. now apply (check_not_sorted self solution candidate).
        * intros [Hperm _]. apply Hsort, sort_ints_range.
          now apply is_permutation_perm.
    - right. split.
      + apply evaluate_rejected.
        apply (check_wrong_length self solution (map IInt candidate));
          [exact Hs | now rewrite len_map].
      + intros [(Hl & _) _]. contradiction. }
  - eexists. split; [apply (evaluate_valid self solution candidate Hi Hs Hv)|].
    split; [exact Hnn|]. split; [contradiction|reflexivity].
  - exists PENALTY. split; [exact Hp|].
    split; [unfold PENALTY; lia|]. split; [reflexivity|contradiction].
Qed.

Lemma evaluate_integers_total_witness :
  exists score,
    evaluate_solution (prefixed4 1) (PyTuple (map IInt [0; 1; 3; 2])) = Ok score /\
    0 <= score /\
    (~ valid_candidate (prefixed4 1) [0; 1; 3; 2] -> score = PENALTY) /\
    (valid_candidate (prefixed4 1) [0; 1; 3; 2] ->
     score = combine (objective_order (prefixed4 1))
               (color_changes (prefixed4 1) [0; 1; 3; 2])
               (high_priority_total (prefixed4 1) [0; 1; 3; 2])
               (low_priority_total (prefixed4 1) [0; 1; 3; 2])).
Proof.
  apply (evaluate_integers_total (prefixed4 1) _ [0; 1; 3; 2]).
  - concrete_instance.
  - now right.
Defined.

(** X2. On a valid instance the identity candidate is always accepted: the
    sequence it reconstructs is the baseline plan itself and its score is the
    baseline's. *)
Theorem identity_scores_baseline self :
  valid_instance self ->
  let identity := range 0 (nb_positions self) in
  valid_candidate self identity /\
  build_sequence self (map IInt identity) = Ok (initial_sequence self) /\
  evaluate_solution self (PyList (map IInt identity))
  = Ok (combine (objective_order self) (color_changes self identity)
          (high_priority_total self identity) (low_priority_total self identity)).
Proof.
  intros Hi identity.
  assert (valid_candidate self identity) as Hv
      by (apply identity_valid, Hi).
  split; [exact Hv|]. split.
  - rewrite (build_sequence_valid self identity Hi (proj1 Hv)).
    f_equal. apply sequence_of_identity, Hi.
  - apply evaluate_valid; [assumption|now left|assumption].
Qed.

Lemma identity_scores_baseline_witness :
  valid_candidate (dense3 2 true) (range 0 3) /\
  build_sequence (dense3 2 true) (map IInt (range 0 3)) = Ok [0; 0; 0] /\
  evaluate_solution (dense3 2 true) (PyList (map IInt (range 0 3)))
  = Ok (combine 2 (color_changes (dense3 2 true) (range 0 3))
          (high_priority_total (dense3 2 true) (range 0 3))
          (low_priority_total (dense3 2 true) (range 0 3))).
Proof.
  apply (identity_scores_baseline (dense3 2 true)).
  concrete_instance.
Defined.

(** X3. Cars of the same class are interchangeable: two valid candidates
    that reconstruct the same sequence of classes get the same score. *)
Theorem same_sequence_same_score self solution1 candidate1 solution2 candidate2 :
  valid_instance self ->
  as_sequence solution1 candidate1 -> valid_candidate self candidate1 ->
  as_sequence solution2 candidate2 -> valid_candidate self candidate2 ->
  map (fun i => nth (Z.to_nat i) (initial_sequence self) 0) candidate1
  = map (fun i => nth (Z.to_nat i) (initial_sequence self) 0) candidate2 ->
  evaluate_solution self solution1 = evaluate_solution self solution2.
Proof.
  intros Hi Hs1 Hv1 Hs2 Hv2 Hseq. unfold evaluate_solution, evaluate_body.
  rewrite (check_valid self solution1 candidate1 Hs1 Hv1).
  rewrite (check_valid self solution2 candidate2 Hs2 Hv2). cbn [cbind].
  rewrite (build_sequence_valid self candidate1 Hi (proj1 Hv1)).
  rewrite (build_sequence_valid self candidate2 Hi (proj1 Hv2)).
  unfold sequence_of. now rewrite Hseq.
Qed.

Lemma same_sequence_same_score_witness :
  evaluate_solution (alternating5 0) (PyList (map IInt [0; 1; 2; 3; 4]))
  = evaluate_solution (alternating5 0) (PyTuple (map IInt [4; 3; 2; 1; 0])).
Proof.
  apply (same_sequence_same_score (alternating5 0) _ [0; 1; 2; 3; 4] _ [4; 3; 2; 1; 0]).
  - concrete_instance.
  - now left.
  - concrete_candidate.
  - now right.
  - concrete_candidate.
  - reflexivity.
Defined.

Lemma count_where_le_len P l : count_where P l <= len l.
Proof.
  unfold count_where, len. pose proof (filter_length_le P l). lia.
Qed.


(** X4. The colour total counts at most one change per scored pair of
    neighbours: it lies between 0 and
    [position_count - 1 - max(start_position - 1, 0)], and 0 when that is
    negative. *)
Theorem color_total_bounds self candidate :
  valid_instance self -> valid_candidate self candidate ->
  exists sequence color,
    build_sequence self (map IInt candidate) = Ok sequence /\
    objective_color self sequence = Next color /\
    0 <= color <= Z.max 0 (nb_positions self - 1 - Z.max (start_position self - 1) 0).
Proof.
  intros Hi [Hp _].
  exists (sequence_of self candidate), (color_changes self candidate).
  split; [now apply build_sequence_valid|].
  split; [now apply objective_color_valid|].
  split; [apply color_changes_nonneg|].
  unfold color_changes, interval.
  etransitivity; [apply count_where_le_len|].
  rewrite len_range. lia.
Qed.

Lemma color_total_bounds_witness :
  exists sequence color,
    build_sequence (prefixed4 0) (map IInt [0; 1; 3; 2]) = Ok sequence /\
    objective_color (prefixed4 0) sequence = Next color /\
    0 <= color <= Z.max 0 (4 - 1 - Z.max (2 - 1) 0).
Proof.
  apply (color_total_bounds (prefixed4 0) [0; 1; 3; 2]).
  - concrete_instance.
  - split; [unfold is_permutation; repeat split; concrete_list|].
    intros p Hp. cbn in Hp.
    assert (p = 0 \/ p = 1) as [-> | ->] by lia; reflexivity.
Defined.



(** X6. While the three totals stay below [M = 10000], comparing two scores
    of one of the five order codes is comparing the totals lexicographically
    in the order the code names (a two-term code ignores the low-priority
    total). *)
Theorem combine_is_lexicographic order c1 h1 l1 c2 h2 l2 :
  0 <= order <= 4 ->
  0 <= c1 < M -> 0 <= h1 < M -> 0 <= l1 < M ->
  0 <= c2 < M -> 0 <= h2 < M -> 0 <= l2 < M ->
  (combine order c1 h1 l1 < combine order c2 h2 l2 <->
   lex_lt (objective_key order c1 h1 l1) (objective_key order c2 h2 l2)).
Proof.
  intros Ho Hc1 Hh1 Hl1 Hc2 Hh2 Hl2.
  unfold combine, objective_key, lex_lt, COLOR_HIGH_LOW, HIGH_LOW_COLOR,
    HIGH_COLOR_LOW, COLOR_HIGH, HIGH_COLOR, M in *.
  repeat match goal with
         | |- context [?a =? ?b] => destruct (Z.eqb_spec a b)
         end; subst; try lia.
Qed.

Lemma combine_is_lexicographic_witness :
  combine 2 9999 3 9999 < combine 2 0 4 0 <->
  lex_lt (objective_key 2 9999 3 9999) (objective_key 2 0 4 0).
Proof.
  apply (combine_is_lexicographic 2 9999 3 9999 0 4 0);
    unfold M; lia.
Defined.

(** X7. The length test comes before any use of the items: a list or tuple of
    the wrong length is scored [PENALTY] whatever it holds, integers or not. *)
Theorem wrong_length_penalty self solution items :
  solution = PyList items \/ solution = PyTuple items ->
  len items <> nb_positions self ->
  evaluate_solution self solution = Ok PENALTY.
Proof.
  intros Hs Hlen. apply evaluate_rejected.
  now apply (check_wrong_length self solution items).
Qed.

Lemma wrong_length_penalty_witness :
  evaluate_solution (alternating5 0) (PyTuple [INone; IStr "x"; IInt 3]) = Ok PENALTY.
Proof.
  apply (wrong_length_penalty (alternating5 0) _ [INone; IStr "x"; IInt 3]).
  - now right.
  - vm_compute. discriminate.
Defined.

Lemma insert_sorted_raises x s e : insert_sorted x s = Raise e -> e = TypeError.
Proof.
  induction s as [|y s IH]; cbn [insert_sorted]; [discriminate|].
  destruct (py_lt y x) as [b|e'] eqn:E; cbn [rbind].
  - destruct b; [|discriminate].
    destruct (insert_sorted x s) as [r|e'']; cbn [rbind]; [discriminate|].
    intros H. inversion H; subst. now apply IH.
  - intros H. inversion H; subst.
    destruct y, x; cbn in E; congruence.
Qed.

Lemma sorted_raises l e : sorted l = Raise e -> e = TypeError.
Proof.
  induction l as [|x l IH]; cbn [sorted]; [discriminate|].
  destruct (sorted l) as [s|e']; cbn [rbind].
  - apply insert_sorted_raises.
  - intros H. inversion H; subst. now apply IH.
Qed.

Lemma insert_sorted_length x s r :
  insert_sorted x s = Ok r -> length r = S (length s).
Proof.
  revert r. induction s as [|y s IH]; intros r; cbn [insert_sorted].
  - intros H. now inversion H.
  - destruct (py_lt y x) as [b|]; cbn [rbind]; [|discriminate].
    destruct b.
    + destruct (insert_sorted x s) as [r'|]; cbn [rbind]; [|discriminate].
      intros H. inversion H; subst. cbn [length]. now rewrite (IH r').
    + intros H. now inversion H.
Qed.

Lemma sorted_length l s : sorted l = Ok s -> length s = length l.
Proof.
  revert s. induction l as [|x l IH]; intros s; cbn [sorted].
  - intros H. now inversion H.
  - destruct (sorted l) as [s'|]; cbn [rbind]; [|discriminate].
    intros H. apply insert_sorted_length in H. cbn [length].
    now rewrite H, (IH s').
Qed.

(** [None] cannot be ordered against anything, itself included. *)
Lemma sorted_with_None l :
  In INone l -> (2 <= length l)%nat -> sorted l = Raise TypeError.
Proof.
  induction l as [|x l IH]; intros Hin Hlen; [contradiction|].
  cbn [sorted].
  destruct (sorted l) as [s|e] eqn:Es; cbn [rbind].
  - pose proof (sorted_length l s Es) as Hs.
    destruct s as [|y s]; [cbn in *; lia|].
    destruct Hin as [->|Hin].
    + cbn [insert_sorted]. now destruct y.
    + destruct l as [|z [|z' l]].
      * contradiction.
      * destruct Hin as [->|[]]. cbn in Es. inversion Es; subst.
        cbn [insert_sorted py_lt rbind]. reflexivity.
      * discriminate IH; [assumption | cbn [length]; lia].
  - f_equal. now apply (sorted_raises l).
Qed.

(** X8. A list or tuple of the right length, two items or more, that holds
    [None] makes the evaluator raise [TypeError]: [sorted] has to compare
    [None] with another item. *)
Theorem none_item_raises self solution items :
  solution = PyList items \/ solution = PyTuple items ->
  len items = nb_positions self ->
  2 <= nb_positions self ->
  In INone items ->
  evaluate_solution self solution = Raise TypeError.
Proof.
  intros Hs Hlen Hn Hin.
  assert (sorted items = Raise TypeError) as Hsort
      by (apply sorted_with_None; [assumption | unfold len in Hlen; lia]).
  unfold evaluate_solution, evaluate_body.
  destruct Hs as [-> | ->]; unfold check_solution;
    rewrite Hlen, Z.eqb_refl; cbn [negb cbind]; rewrite Hsort; reflexivity.
Qed.

Lemma none_item_raises_witness :
  evaluate_solution (dense3 0 true) (PyList [IInt 0; INone; IInt 2]) = Raise TypeError.
Proof.
  apply (none_item_raises (dense3 0 true) _ [IInt 0; INone; IInt 2]).
  - now left.
  - reflexivity.
  - vm_compute. discriminate.
  - cbn. auto.
Defined.

(** X9. The prefix loop trusts [start_position <= position_count]: on an
    instance that breaks it, the identity candidate passes the permutation
    check and then indexes past its own end, raising [IndexError]. *)
Theorem start_beyond_end_raises self :
  0 <= nb_positions self < start_position self ->
  evaluate_solution self (PyList (map IInt (range 0 (nb_positions self))))
  = Raise IndexError.
Proof.
  intros Hn. set (n := nb_positions self) in *.
  assert (len (range 0 n) = n) as Hlen by (rewrite len_range; lia).
  unfold evaluate_solution, evaluate_body, check_solution.
  rewrite len_map, Hlen. fold n. rewrite Z.eqb_refl. cbn [negb cbind].
  rewrite sorted_ints. cbn [lift cbind].
  rewrite (proj2 (sort_ints_range (range 0 n) n) (Permutation_refl _)).
  rewrite (proj2 (items_eq_ints_iff _ _) eq_refl). cbn [negb cbind].
  rewrite (range_split 0 n (start_position self)) by lia.
  rewrite foreach_first_Throw with (e := IndexError); [reflexivity| |].
  - intros q Hq. apply In_range in Hq.
    rewrite (getitem_nth_error _ q (IInt q)).
    + cbn [lift cbind item_eq_int]. now rewrite Z.eqb_refl.
    + lia.
    + apply map_nth_error. rewrite nth_error_range by lia. f_equal.
  - rewrite getitem_out_of_range by (rewrite len_map; lia). reflexivity.
Qed.

Lemma start_beyond_end_raises_witness :
  evaluate_solution (with_start (alternating5 0) 6)
    (PyList (map IInt (range 0 5))) = Raise IndexError.
Proof.
  apply (start_beyond_end_raises (with_start (alternating5 0) 6)).
  vm_compute. intuition discriminate.
Defined.

(** X10. A valid candidate's score stays strictly below [PENALTY] as long as
    its three totals are below [M] and, under a three-term order code, the
    leading total is at most 9. *)
Theorem bounded_score_below_penalty self solution candidate :
  valid_instance self ->
  as_sequence solution candidate ->
  valid_candidate self candidate ->
  color_changes self candidate < M ->
  high_priority_total self candidate < M ->
  low_priority_total self candidate < M ->
  (objective_order self = COLOR_HIGH_LOW -> color_changes self candidate <= 9) ->
  (objective_order self = HIGH_LOW_COLOR \/ objective_order self = HIGH_COLOR_LOW ->
   high_priority_total self candidate <= 9) ->
  exists score, evaluate_solution self solution = Ok score /\ score < PENALTY.
Proof.
  intros Hi Hs Hv Hc Hh Hl H0 H12.
  eexists. split; [apply (evaluate_valid self solution candidate Hi Hs Hv)|].
  pose proof (color_changes_nonneg self candidate).
  pose proof (high_priority_total_nonneg self candidate).
  pose proof (low_priority_total_nonneg self candidate).
  apply score_below_penalty; auto; lia.
Qed.

Lemma bounded_score_below_penalty_witness :
  exists score,
    evaluate_solution (dense3 0 true) (PyList (map IInt [1; 0; 2])) = Ok score /\
    score < PENALTY.
Proof.
  apply (bounded_score_below_penalty (dense3 0 true) _ [1; 0; 2]).
  - concrete_instance.
  - now left.
  - concrete_candidate.
  - vm_compute. reflexivity.
  - vm_compute. reflexivity.
  - vm_compute. reflexivity.
  - intros _. vm_compute. discriminate.
  - intros [H|H]; vm_compute in H; discriminate.
Defined.

(** * Further properties of instance construction *)

Lemma reads_next_int py_int : reads (next_int py_int) 1.
Proof.
  intros it a it' H. apply next_int_Ok in H as (t & -> & Ht).
  exists [t]. repeat split. intros extra. cbn. now rewrite Ht.
Qed.

Lemma reads_ret {A} (a : A) : reads (rd_ret a) 0.
Proof.
  intros it b it' H. unfold rd_ret in H. inversion H; subst.
  exists []. repeat split.
Qed.

Lemma reads_bind {A B} (c : reader A) (k : A -> reader B) n m :
  reads c n -> (forall a, reads (k a) m) -> reads (rd_bind c k) (n + m).
Proof.
  intros Hc Hk it b it' H.
  apply rd_bind_Ok in H as (a & it1 & E1 & E2).
  apply Hc in E1 as (u1 & -> & Hn & X1).
  apply Hk in E2 as (u2 & -> & Hm & X2).
  exists (u1 ++ u2). split; [now rewrite app_assoc|].
  split; [rewrite length_app; lia|].
  intros extra. unfold rd_bind. rewrite <- app_assoc, X1. apply X2.
Qed.

Lemma reads_foreach {A St} (l : list A) (body : A -> St -> reader St) m :
  (forall x s, reads (body x s) m) ->
  forall s, reads (rd_foreach l body s) (length l * m).
Proof.
  intros Hb. induction l as [|x l IH]; intros s; cbn [rd_foreach length].
  - apply reads_ret.
  - change (S (length l) * m)%nat with (m + length l * m)%nat.
    apply reads_bind; [apply Hb | apply IH].
Qed.

Lemma reads_read_options py_int n :
  reads (read_options py_int n) (length (range 0 n) * 3).
Proof.
  apply reads_foreach. intros _ [[[mx ws] pr] hl].
  apply (reads_bind _ _ 1 2); [apply reads_next_int|]. intros m.
  apply (reads_bind _ _ 1 1); [apply reads_next_int|]. intros w.
  apply (reads_bind _ _ 1 0); [apply reads_next_int|]. intros q.
  apply reads_ret.
Qed.

Lemma reads_read_opts py_int n :
  reads (read_opts py_int n) (length (range 0 n) * 1).
Proof.
  apply reads_foreach. intros _ opts.
  apply (reads_bind _ _ 1 0); [apply reads_next_int|]. intros b.
  apply reads_ret.
Qed.

Lemma reads_read_classes py_int nc n :
  reads (read_classes py_int nc n)
    (length (range 0 nc) * (2 + length (range 0 n) * 1)).
Proof.
  apply reads_foreach. intros _ [[cc nb] od].
  apply (reads_bind _ _ 1 (1 + length (range 0 n) * 1)); [apply reads_next_int|].
  intros color.
  apply (reads_bind _ _ 1 (length (range 0 n) * 1)); [apply reads_next_int|].
  intros count.
  rewrite <- (Nat.add_0_r (length (range 0 n) * 1)).
  apply reads_bind; [apply reads_read_opts|]. intros opts.
  apply reads_ret.
Qed.

(** An invariant of a reading loop, indexed by the iterations done. *)
Lemma rd_foreach_inv {A St} (I : nat -> St -> Prop) (l : list A)
      (body : A -> St -> reader St) :
  (forall x s it s' it' k, I k s -> body x s it = Ok (s', it') -> I (S k) s') ->
  forall s it r it' k,
    I k s -> rd_foreach l body s it = Ok (r, it') -> I (k + length l)%nat r.
Proof.
  intros Hb. induction l as [|x l IH]; intros s it r it' k Hk H;
    cbn [rd_foreach length] in *.
  - unfold rd_ret in H. inversion H; subst. now rewrite Nat.add_0_r.
  - apply rd_bind_Ok in H as (s1 & it1 & E1 & E2).
    replace (k + S (length l))%nat with (S k + length l)%nat by lia.
    apply (IH s1 it1 r it'); [|assumption].
    now apply (Hb x s it s1 it1).
Qed.

Lemma read_options_shape py_int n it mx ws pr hl it' :
  read_options py_int n it = Ok ((mx, ws, pr, hl), it') ->
  length mx = length (range 0 n) /\
  length ws = length (range 0 n) /\
  length pr = length (range 0 n).
Proof.
  intros H.
  apply (rd_foreach_inv
           (fun k '(mx, ws, pr, _) =>
              length mx = k /\ length ws = k /\ length pr = k)
           _ _) with (k := 0%nat) in H; [exact H| |cbn; auto].
  clear. intros _ [[[mx ws] pr] hl] it s' it' k (H1 & H2 & H3) H.
  rd_step H m Hm. rd_step H w Hw. rd_step H q Hq.
  unfold rd_ret in H. inversion H; subst.
  rewrite !length_app. cbn [length]. lia.
Qed.

Lemma read_opts_shape py_int n it opts it' :
  read_opts py_int n it = Ok (opts, it') -> length opts = length (range 0 n).
Proof.
  intros H.
  apply (rd_foreach_inv (fun k opts => length opts = k) _ _) with (k := 0%nat) in H;
    [exact H| |reflexivity].
  clear. intros _ opts it s' it' k Hk H.
  rd_step H b Hb. unfold rd_ret in H. inversion H; subst.
  rewrite length_app. cbn [length]. lia.
Qed.

Lemma read_classes_shape py_int nc n it cc nb od it' :
  read_classes py_int nc n it = Ok ((cc, nb, od), it') ->
  length cc = length (range 0 nc) /\
  length nb = length (range 0 nc) /\
  length od = length (range 0 nc) /\
  Forall (fun row => length row = length (range 0 n)) od.
Proof.
  intros H.
  apply (rd_foreach_inv
           (fun k '(cc, nb, od) =>
              length cc = k /\ length nb = k /\ length od = k /\
              Forall (fun row => length row = length (range 0 n)) od)
           _ _) with (k := 0%nat) in H; [exact H| |cbn; auto].
  clear. intros _ [[cc nb] od] it s' it' k (H1 & H2 & H3 & H4) H.
  rd_step H color Hc. rd_step H count Hn. rd_step H opts Ho.
  unfold rd_ret in H. inversion H; subst.
  rewrite !length_app. cbn [length]. repeat split; try lia.
  apply Forall_app. split; [assumption|].
  constructor; [|constructor]. now apply read_opts_shape in Ho.
Qed.

Lemma expand_classes_elements cs nb acc r :
  expand_classes cs nb acc = Ok r ->
  forall c, In c r -> In c acc \/ In c cs.
Proof.
  revert acc. induction cs as [|c0 cs IH]; intros acc H c Hc; cbn [expand_classes] in H.
  - inversion H; subst. now left.
  - destruct (getitem nb c0) as [k|]; cbn [rbind] in H; [|discriminate].
    destruct (IH _ H c Hc) as [Hin|Hin].
    + apply in_app_or in Hin. destruct Hin as [Hin|Hin]; [now left|].
      apply repeat_spec in Hin. subst. right. now left.
    + right. now right.
Qed.

Lemma sorted_app (l1 l2 : list Z) :
  StronglySorted Z.le l1 -> StronglySorted Z.le l2 ->
  (forall x y, In x l1 -> In y l2 -> x <= y) ->
  StronglySorted Z.le (l1 ++ l2).
Proof.
  induction 1 as [|a l1 Hs IH Ha]; intros H2 Hle; cbn [app]; [assumption|].
  constructor.
  - apply IH; [assumption|]. intros x y Hx Hy. apply Hle; [now right|assumption].
  - apply Forall_app. split; [assumption|].
    rewrite Forall_forall. intros y Hy. apply Hle; [now left|assumption].
Qed.

Lemma repeat_sorted (c : Z) k : StronglySorted Z.le (repeat c k).
Proof.
  induction k as [|k IH]; cbn [repeat]; constructor; [assumption|].
  rewrite Forall_forall. intros y Hy. apply repeat_spec in Hy. lia.
Qed.

Lemma expand_classes_sorted cs nb acc r :
  StronglySorted Z.le cs -> StronglySorted Z.le acc ->
  (forall x c, In x acc -> In c cs -> x <= c) ->
  expand_classes cs nb acc = Ok r ->
  StronglySorted Z.le r.
Proof.
  intros Hcs. revert acc.
  induction Hcs as [|c0 cs Hs IH Hc0]; intros acc Hacc Hle H; cbn [expand_classes] in H.
  - now inversion H; subst.
  - destruct (getitem nb c0) as [k|]; cbn [rbind] in H; [|discriminate].
    apply (IH _) in H; [assumption| |].
    + apply sorted_app; [assumption|apply repeat_sorted|].
      intros x y Hx Hy. apply repeat_spec in Hy. subst. apply Hle; [assumption|now left].
    + intros x c Hx Hc. apply in_app_or in Hx. destruct Hx as [Hx|Hx].
      * apply Hle; [assumption|now right].
      * apply repeat_spec in Hx. subst. rewrite Forall_forall in Hc0. now apply Hc0.
Qed.

(** Everything a successful load went through. *)
Lemma load_instance_inv py_int tokens self :
  _load_instance py_int tokens = Ok self ->
  exists t0 t1 t2 t3 t4 t5 it nb_classes code it1 nb_cars_per_class it2,
    tokens = t0 :: t1 :: t2 :: t3 :: t4 :: t5 :: it /\
    py_int t0 = Ok (nb_positions self) /\
    py_int t1 = Ok (nb_options self) /\
    py_int t2 = Ok nb_classes /\
    py_int t3 = Ok (paint_batch_limit self) /\
    py_int t4 = Ok code /\
    py_int t5 = Ok (start_position self) /\
    read_options py_int (nb_options self) it
    = Ok ((max_cars_per_window self, window_size self, is_priority_option self,
           has_low_priority_options self), it1) /\
    objective_order self
    = adjust_objective_order (has_low_priority_options self) code /\
    read_classes py_int nb_classes (nb_options self) it1
    = Ok ((color_class self, nb_cars_per_class, options_data self), it2) /\
    expand_classes (range 0 nb_classes) nb_cars_per_class []
    = Ok (initial_sequence self) /\
    len (initial_sequence self) = nb_positions self.
Proof.
  unfold _load_instance. intros H.
  match type of H with
  | match ?b tokens with _ => _ end = _ =>
      destruct (b tokens) as [[self' rest]|e] eqn:Hb; [|discriminate]
  end.
  inversion H; subst self'; clear H.
  rd_step Hb n E0. apply next_int_Ok in E0 as (t0 & -> & H0).
  rd_step Hb no E1. apply next_int_Ok in E1 as (t1 & -> & H1).
  rd_step Hb nc E2. apply next_int_Ok in E2 as (t2 & -> & H2).
  rd_step Hb pbl E3. apply next_int_Ok in E3 as (t3 & -> & H3).
  rd_step Hb code E4. apply next_int_Ok in E4 as (t4 & -> & H4).
  rd_step Hb sp E5. apply next_int_Ok in E5 as (t5 & -> & H5).
  rd_step Hb opts Eo. destruct opts as [[[mx ws] pr] hl].
  rd_step Hb cls Ec. destruct cls as [[cc nb] od].
  rd_step Hb iseq Es.
  destruct (Z.eqb_spec (len iseq) n) as [Hlen|Hlen]; cbn [negb] in Hb;
    [|discriminate].
  unfold rd_ret in Hb. inversion Hb; subst; cbn.
  unfold rd_lift in Es.
  destruct (expand_classes (range 0 nc) nb []) as [seq0|] eqn:Ee; [|discriminate].
  inversion Es; subst.
  do 12 eexists. repeat split; eassumption.
Qed.

Lemma length_range lo hi : Z.of_nat (length (range lo hi)) = Z.max 0 (hi - lo).
Proof. apply len_range. Qed.

(** X11. An instance that loads from a file has the shape the evaluator
    relies on, provided the file's [nb_options] is not negative and its
    [start_position] lies in [0 .. nb_positions] (the loader checks neither):
    the per-option lists have [nb_options] entries, every class has a colour
    and [nb_options] option flags, and the baseline plan has [nb_positions]
    entries, each the index of a class read from the file. *)
Theorem loaded_instance_is_valid py_int tokens self :
  _load_instance py_int tokens = Ok self ->
  0 <= nb_options self ->
  0 <= start_position self <= nb_positions self ->
  valid_instance self.
Proof.
  intros H Ho Hs.
  apply load_instance_inv in H
    as (t0 & t1 & t2 & t3 & t4 & t5 & it & nc & code & it1 & nb & it2 &
        _ & _ & _ & _ & _ & _ & _ & Eo & _ & Ec & Ee & Hlen).
  apply read_options_shape in Eo as (Hmx & Hws & Hpr).
  apply read_classes_shape in Ec as (Hcc & _ & Hod & Hrows).
  pose proof (length_range 0 (nb_options self)) as Hro.
  pose proof (length_range 0 nc) as Hrc.
  unfold valid_instance, len.
  split; [exact Hs|]. split; [exact Hlen|]. split.
  - rewrite Forall_forall. intros c Hc.
    destruct (expand_classes_elements _ _ _ _ Ee c Hc) as [[]|Hin].
    apply In_range in Hin. lia.
  - split; [lia|]. split; [lia|]. split; [lia|]. split; [lia|].
    eapply Forall_impl; [|exact Hrows]. cbn. intros row Hrow. lia.
Qed.

Lemma loaded_instance_is_valid_witness : valid_instance (dense3 3 false).
Proof.
  apply (loaded_instance_is_valid int_of_decimal dense3_tokens).
  - reflexivity.
  - vm_compute. discriminate.
  - vm_compute. intuition discriminate.
Defined.

(** X12. After a load the flag [has_low_priority_options] tells whether some
    option is not high priority, and when none is the stored order code is
    never one of the three-term codes 0, 1 and 2. *)
Theorem loaded_order_is_adjusted py_int tokens self :
  _load_instance py_int tokens = Ok self ->
  has_low_priority_options self = existsb negb (is_priority_option self) /\
  (has_low_priority_options self = false ->
   objective_order self <> COLOR_HIGH_LOW /\
   objective_order self <> HIGH_LOW_COLOR /\
   objective_order self <> HIGH_COLOR_LOW).
Proof.
  intros H. apply load_instance_adjusts in H as (Hflag & t & code & _ & _ & Ho).
  split; [exact Hflag|]. intros Hlow. rewrite Ho, Hlow.
  unfold adjust_objective_order, COLOR_HIGH_LOW, HIGH_LOW_COLOR, HIGH_COLOR_LOW,
    COLOR_HIGH, HIGH_COLOR. cbn [negb].
  repeat match goal with
         | |- context [?a =? ?b] => destruct (Z.eqb_spec a b)
         end; lia.
Qed.

Lemma loaded_order_is_adjusted_witness :
  has_low_priority_options (grouped5 3) = existsb negb (is_priority_option (grouped5 3)) /\
  (has_low_priority_options (grouped5 3) = false ->
   objective_order (grouped5 3) <> COLOR_HIGH_LOW /\
   objective_order (grouped5 3) <> HIGH_LOW_COLOR /\
   objective_order (grouped5 3) <> HIGH_COLOR_LOW).
Proof.
  apply (loaded_order_is_adjusted int_of_decimal grouped5_tokens).
  reflexivity.
Defined.

(** X13. The baseline plan of a loaded instance is grouped by class: class
    indices never decrease along it. *)
Theorem loaded_baseline_is_grouped py_int tokens self :
  _load_instance py_int tokens = Ok self ->
  StronglySorted Z.le (initial_sequence self).
Proof.
  intros H.
  apply load_instance_inv in H
    as (t0 & t1 & t2 & t3 & t4 & t5 & it & nc & code & it1 & nb & it2 &
        _ & _ & _ & _ & _ & _ & _ & _ & _ & _ & Ee & _).
  apply (expand_classes_sorted _ _ _ _ (range_sorted 0 nc)) in Ee;
    [assumption|constructor|]. intros x c [].
Qed.

Lemma loaded_baseline_is_grouped_witness :
  StronglySorted Z.le (initial_sequence (grouped5 3)).
Proof.
  apply (loaded_baseline_is_grouped int_of_decimal grouped5_tokens).
  reflexivity.
Defined.

(** X14. A load reads a prefix of the file and nothing else: six header
    tokens, three per option and, per class, two plus one per option.  A file
    that loads holds at least that many tokens, and whatever follows them
    does not change the instance. *)
Theorem load_reads_a_prefix py_int tokens self :
  _load_instance py_int tokens = Ok self ->
  exists used rest,
    tokens = used ++ rest /\
    len used = 6 + 3 * len (window_size self)
               + len (color_class self) * (2 + len (window_size self)) /\
    forall extra, _load_instance py_int (used ++ extra) = Ok self.
Proof.
  intros H. apply load_instance_inv in H
    as (t0 & t1 & t2 & t3 & t4 & t5 & it & nc & code & it1 & nb & it2 &
        Htok & H0 & H1 & H2 & H3 & H4 & H5 & Eo & Hord & Ec & Ee & Hlen).
  destruct (reads_read_options _ _ _ _ _ Eo) as (u1 & Hu1 & Hk1 & X1).
  destruct (reads_read_classes _ _ _ _ _ _ Ec) as (u2 & Hu2 & Hk2 & X2).
  apply read_options_shape in Eo as (_ & Hws & _).
  apply read_classes_shape in Ec as (Hcc & _).
  exists (t0 :: t1 :: t2 :: t3 :: t4 :: t5 :: u1 ++ u2), it2.
  split; [|split].
  - subst tokens it it1. cbn [app]. now rewrite <- app_assoc.
  - unfold len. cbn [length]. rewrite length_app, Hk1, Hk2, Hws, Hcc. lia.
  - intros extra. destruct self. cbn in *.
    unfold _load_instance, rd_bind, next_int. cbn [app].
    rewrite H0; cbn [rbind]. rewrite H1; cbn [rbind]. rewrite H2; cbn [rbind].
    rewrite H3; cbn [rbind]. rewrite H4; cbn [rbind]. rewrite H5; cbn [rbind].
    rewrite <- app_assoc, X1, X2. unfold rd_lift. rewrite Ee, Hlen, Z.eqb_refl.
    cbn [negb]. unfold rd_ret. now rewrite Hord.
Qed.

Lemma load_reads_a_prefix_witness :
  exists used rest,
    dense3_tokens = used ++ rest /\
    len used = 6 + 3 * len (window_size (dense3 3 false))
               + len (color_class (dense3 3 false))
                 * (2 + len (window_size (dense3 3 false))) /\
    forall extra, _load_instance int_of_decimal (used ++ extra) = Ok (dense3 3 false).
Proof.
  apply (load_reads_a_prefix int_of_decimal dense3_tokens (dense3 3 false)).
  reflexivity.
Defined.

(** X15. Without an instance file the constructor wants every keyword
    argument: one left at [None] raises [ValueError], whatever the others
    hold. *)
Theorem init_missing_argument py_int a :
  arg_instance_file a = None ->
  arg_nb_positions a = None \/ arg_nb_options a = None \/
  arg_paint_batch_limit a = None \/ arg_objective_order a = None \/
  arg_start_position a = None \/ arg_max_cars_per_window a = None \/
  arg_window_size a = None \/ arg_is_priority_option a = None \/
  arg_has_low_priority_options a = None \/ arg_color_class a = None \/
  arg_options_data a = None \/ arg_initial_sequence a = None ->
  __init__ py_int a = Raise ValueError.
Proof.
  destruct a as [f p1 p2 p3 p4 p5 p6 p7 p8 p9 p10 p11 p12].
  cbn. intros -> H.
  destruct p1; [|reflexivity]. destruct p2; [|reflexivity].
  destruct p3; [|reflexivity]. destruct p4; [|reflexivity].
  destruct p5; [|reflexivity]. destruct p6; [|reflexivity].
  destruct p7; [|reflexivity]. destruct p8; [|reflexivity].
  destruct p9; [|reflexivity]. destruct p10; [|reflexivity].
  destruct p11; [|reflexivity]. destruct p12; [|reflexivity].
  exfalso. repeat (destruct H as [H|H]; [discriminate|]). discriminate.
Qed.

Lemma init_missing_argument_witness :
  __init__ int_of_decimal
    {| arg_instance_file := None;
       arg_nb_positions := Some 3; arg_nb_options := Some 0;
       arg_paint_batch_limit := Some 1; arg_objective_order := Some 0;
       arg_start_position := Some 0; arg_max_cars_per_window := Some [];
       arg_window_size := Some []; arg_is_priority_option := Some [];
       arg_has_low_priority_options := None; arg_color_class := Some [1];
       arg_options_data := Some [[]]; arg_initial_sequence := Some [0; 0; 0] |}
  = Raise ValueError.
Proof.
  apply init_missing_argument.
  - reflexivity.
  - do 8 right. left. reflexivity.
Defined.

(** * Further properties of the generator *)

Section GeneratorFacts.

Variable rng : Type.
Variable randbelow : Z -> rng -> Z * rng.

Lemma shuffle_short x g :
  len x <= 1 -> shuffle rng randbelow x g = Ok (x, g).
Proof.
  intros H. unfold shuffle. now rewrite range_empty by lia.
Qed.

(** X16. With at most one free position nothing is drawn: the generator is
    handed back untouched and the candidate is the identity. *)
Theorem random_solution_nothing_free self g :
  0 <= start_position self <= nb_positions self ->
  nb_positions self - start_position self <= 1 ->
  random_solution rng randbelow self g = Ok (range 0 (nb_positions self), g).
Proof.
  intros Hs Hfree. unfold random_solution.
  rewrite shuffle_short by (rewrite len_range; lia). cbn [rbind].
  now rewrite <- range_app by lia.
Qed.

Hypothesis randbelow_range :
  forall n g, 0 < n -> 0 <= fst (randbelow n g) < n.

Lemma random_solution_shape self g :
  exists remaining g',
    random_solution rng randbelow self g
    = Ok (range 0 (start_position self) ++ remaining, g') /\
    Permutation remaining (range (start_position self) (nb_positions self)).
Proof.
  unfold random_solution.
  destruct (shuffle_perm rng randbelow randbelow_range
              (range (start_position self) (nb_positions self)) g)
    as (rem & g' & -> & Hp).
  exists rem, g'. split; [reflexivity|exact Hp].
Qed.

Lemma random_solution_candidate self g :
  0 <= start_position self <= nb_positions self ->
  exists candidate g',
    random_solution rng randbelow self g = Ok (candidate, g') /\
    valid_candidate self candidate.
Proof.
  intros Hs. destruct (random_solution_shape self g) as (rem & g' & E & Hp).
  exists (range 0 (start_position self) ++ rem), g'. split; [exact E|].
  assert (Permutation (range 0 (start_position self) ++ rem)
            (range 0 (nb_positions self))) as HP.
  { rewrite (range_app 0 (start_position self) (nb_positions self)) by lia.
    now apply Permutation_app_head. }
  split.
  - apply perm_is_permutation; [|exact HP].
    unfold len. rewrite (Permutation_length HP).
    pose proof (len_range 0 (nb_positions self)) as Hl. unfold len in Hl. lia.
  - intros p Hp0.
    assert (Z.to_nat p < length (range 0 (start_position self)))%nat as Hlt.
    { pose proof (len_range 0 (start_position self)) as Hl. unfold len in Hl. lia. }
    rewrite nth_error_app1 by exact Hlt.
    rewrite nth_error_range by lia. f_equal.
Qed.

(** X17. On a valid instance the generator and the evaluator compose: what
    [random_solution] returns is a valid candidate, and [evaluate_solution]
    gives it its real score, the combination of its three totals. *)
Theorem random_solution_is_scored self g :
  valid_instance self ->
  exists candidate g',
    random_solution rng randbelow self g = Ok (candidate, g') /\
    valid_candidate self candidate /\
    evaluate_solution self (PyList (map IInt candidate))
    = Ok (combine (objective_order self) (color_changes self candidate)
            (high_priority_total self candidate)
            (low_priority_total self candidate)).
Proof.
  intros Hi.
  destruct (random_solution_candidate self g (proj1 Hi)) as (c & g' & E & Hv).
  exists c, g'. split; [exact E|]. split; [exact Hv|].
  apply evaluate_valid; [assumption|now left|assumption].
Qed.

(** X18. The generator does not check [start_position]: when it lies
    outside [0 .. position_count] the list returned has the wrong length,
    and the evaluator scores it [PENALTY]. *)
Theorem random_solution_bad_start self g :
  0 <= nb_positions self ->
  start_position self < 0 \/ nb_positions self < start_position self ->
  exists candidate g',
    random_solution rng randbelow self g = Ok (candidate, g') /\
    len candidate <> nb_positions self /\
    evaluate_solution self (PyList (map IInt candidate)) = Ok PENALTY.
Proof.
  intros Hn Hs. destruct (random_solution_shape self g) as (rem & g' & E & Hp).
  exists (range 0 (start_position self) ++ rem), g'. split; [exact E|].
  assert (len (range 0 (start_position self) ++ rem) <> nb_positions self) as Hlen.
  { unfold len. rewrite length_app, (Permutation_length Hp).
    pose proof (len_range 0 (start_position self)) as H1.
    pose proof (len_range (start_position self) (nb_positions self)) as H2.
    unfold len in H1, H2. lia. }
  split; [exact Hlen|].
  apply evaluate_rejected.
  apply (check_wrong_length self _ (map IInt (range 0 (start_position self) ++ rem)));
    [now left | now rewrite len_map].
Qed.

End GeneratorFacts.

Lemma random_solution_nothing_free_witness :
  random_solution Z lcg_randbelow (with_start (alternating5 0) 4) 7
  = Ok (range 0 5, 7).
Proof.
  apply (random_solution_nothing_free Z lcg_randbelow (with_start (alternating5 0) 4) 7).
  - vm_compute. intuition discriminate.
  - vm_compute. discriminate.
Defined.

Lemma random_solution_is_scored_witness :
  exists candidate g',
    random_solution Z lcg_randbelow alternating11 2026 = Ok (candidate, g') /\
    valid_candidate alternating11 candidate /\
    evaluate_solution alternating11 (PyList (map IInt candidate))
    = Ok (combine (objective_order alternating11) (color_changes alternating11 candidate)
            (high_priority_total alternating11 candidate)
            (low_priority_total alternating11 candidate)).
Proof.
  apply (random_solution_is_scored Z lcg_randbelow).
  - intros n g Hn. cbn [lcg_randbelow fst]. apply Z.mod_pos_bound. exact Hn.
  - concrete_instance.
Defined.

Lemma random_solution_bad_start_witness :
  exists candidate g',
    random_solution Z lcg_randbelow (with_start (alternating5 0) (-2)) 11
    = Ok (candidate, g') /\
    len candidate <> nb_positions (with_start (alternating5 0) (-2)) /\
    evaluate_solution (with_start (alternating5 0) (-2)) (PyList (map IInt candidate))
    = Ok PENALTY.
Proof.
  apply (random_solution_bad_start Z lcg_randbelow).
  - intros n g Hn. cbn [lcg_randbelow fst]. apply Z.mod_pos_bound. exact Hn.
  - vm_compute. discriminate.
  - left. vm_compute. reflexivity.
Defined.
